(** * Image gallery backend (index.js): storage mode, auth gate, image store

    A shallow embedding of the Express application of [src/index.js]:
    the process-wide fallback state ([users], [images], [mongoConnected]),
    the two middlewares ([authenticateToken], [isAdmin]) and the five route
    handlers, followed by the properties of the specification that can be
    stated over them.

    Handlers are modelled as functions from the process state and the
    outcomes of the external calls made while serving one request (clock
    reads, database, media host) to the next state and the response.  The
    process takes one event at a time.  A handler whose awaits lie before its
    first read of the state or after its last write is one event; the delete
    handler, which awaits the media host between looking a record up and
    removing it, and the seeding of the User collection, which awaits between
    its query and its insert, are also taken in pieces, with other events in
    between. *)

From Stdlib Require Import ZArith List String Ascii Bool Lia.
From Stdlib Require Import Permutation Sorted DecimalString.
From Stdlib Require DecimalPos DecimalZ.
Import ListNotations.
Open Scope string_scope.
Open Scope list_scope.
Open Scope Z_scope.

(** ** JavaScript values *)

(** The scalar values a JSON body field or a record field can hold. *)
Inductive jsval : Type :=
| JUndefined
| JNull
| JBool (b : bool)
| JNum (n : Z)
| JStr (s : string).

(** ToBoolean. *)
Definition truthy (v : jsval) : bool :=
  match v with
  | JUndefined | JNull => false
  | JBool b => b
  | JNum n => negb (n =? 0)
  | JStr s => negb (String.eqb s "")
  end.

(** [a || b]. *)
Definition js_or (a b : jsval) : jsval := if truthy a then a else b.

(** [s === v] for a string [s]. *)
Definition str_strict_eq (s : string) (v : jsval) : bool :=
  match v with
  | JStr s' => String.eqb s s'
  | _ => false
  end.

(** A title that satisfies the data model: a non-empty string. *)
Definition nonempty_string (v : jsval) : bool :=
  match v with
  | JStr s => negb (String.eqb s "")
  | _ => false
  end.

(** The decimal digits of an integer: [Number.prototype.toString()] on an
    integer that a double holds exactly and prints in full, as every clock
    reading is. *)
Definition toString (n : Z) : string := NilZero.string_of_int (Z.to_int n).

(** The double nearest to a positive integer, ties to even: the number
    [JSON.parse] makes of an integer literal. *)
Definition to_double (z : Z) : Z :=
  let bits := Z.log2 z + 1 in
  if bits <=? 53 then z
  else
    let shift := bits - 53 in
    let q := Z.shiftr z shift in
    let r := z - Z.shiftl q shift in
    let half := Z.shiftl 1 (shift - 1) in
    Z.shiftl (if (half <? r) || ((r =? half) && Z.odd q) then q + 1 else q) shift.

(** The integers [s] of [k] digits for which [s * 10^(n-k)] is read back as
    the double [x]. *)
Definition candidates (x n k : Z) : list Z :=
  if n <? k then []
  else
    let p := 10 ^ (n - k) in
    filter (fun s => (10 ^ (k - 1) <=? s) && (s <? 10 ^ k) && (to_double (s * p) =? x))
           [x / p; x / p + 1].

(** Of two candidates the one nearer to [x], the even one when they are
    equally near. *)
Definition closest (x p : Z) (l : list Z) : option Z :=
  match l with
  | [] => None
  | [s] => Some s
  | s :: s' :: _ =>
      let d := Z.abs (s * p - x) in
      let d' := Z.abs (s' * p - x) in
      if d <? d' then Some s
      else if d' <? d then Some s'
      else if Z.even s then Some s else Some s'
  end.

(** The shortest digit string that identifies the double [x]: [(s, k, n)]
    with [k] as small as possible, tried from [k] up; [d] is the number of
    decimal digits of [x]. *)
Fixpoint shortest (x d k : Z) (fuel : nat) : option (Z * Z * Z) :=
  match fuel with
  | O => None
  | S fuel' =>
      match closest x (10 ^ (d - k)) (candidates x d k) with
      | Some s => Some (s, k, d)
      | None =>
          match closest x (10 ^ (d + 1 - k)) (candidates x (d + 1) k) with
          | Some s => Some (s, k, d + 1)
          | None => shortest x d (k + 1) fuel'
          end
      end
  end.

Fixpoint zeros (n : nat) : string :=
  match n with
  | O => EmptyString
  | S n' => String "0" (zeros n')
  end.

Definition positive_toString (v : Z) : string :=
  let x := to_double v in
  if 2 ^ 1024 <=? x then "Infinity"
  else
    match shortest x (Z.of_nat (String.length (toString x))) 1 17 with
    | None => toString x
    | Some (s, k, n) =>
        if n <=? 21 then String.append (toString s) (zeros (Z.to_nat (n - k)))
        else
          match toString s with
          | EmptyString => EmptyString
          | String c EmptyString => String c (String.append "e+" (toString (n - 1)))
          | String c rest =>
              String c (String.append "." (String.append rest
                                             (String.append "e+" (toString (n - 1)))))
          end
    end.

(** [Number.prototype.toString()] on the number a JSON integer literal
    denotes: the shortest digits that identify the double, written in full
    up to 21 digits and with an exponent beyond. *)
Definition Number_toString (v : Z) : string :=
  if v =? 0 then "0"
  else if v <? 0 then String.append "-" (positive_toString (- v))
  else positive_toString v.

(** [String.prototype.toLowerCase] on the letters A to Z; the other
    characters of a file name or of an id are left as they are. *)
Definition lower_char (c : ascii) : ascii :=
  let n := nat_of_ascii c in
  if ((65 <=? n) && (n <=? 90))%nat then ascii_of_nat (n + 32) else c.

Fixpoint toLowerCase (s : string) : string :=
  match s with
  | EmptyString => EmptyString
  | String c s' => String (lower_char c) (toLowerCase s')
  end.

(** The outcome of a call that may throw (or of an awaited promise that may
    reject). *)
Inductive result (A : Type) : Type :=
| Ok (a : A)
| Throw (msg : string).
Arguments Ok {A} a.
Arguments Throw {A} msg.

(** ** Arrays *)

(** [Array.prototype.findIndex]; [None] stands for -1. *)
Fixpoint findIndex {A : Type} (p : A -> bool) (l : list A) : option nat :=
  match l with
  | [] => None
  | x :: l' => if p x then Some O else option_map S (findIndex p l')
  end.

(** [l.splice(i, 1)]. *)
Fixpoint splice1 {A : Type} (i : nat) (l : list A) : list A :=
  match l, i with
  | [], _ => []
  | _ :: l', O => l'
  | x :: l', S i' => x :: splice1 i' l'
  end.

(** [l[i] = f(l[i])] for an index inside the array. *)
Fixpoint update_at {A : Type} (i : nat) (f : A -> A) (l : list A) : list A :=
  match l, i with
  | [], _ => []
  | x :: l', O => f x :: l'
  | x :: l', S i' => x :: update_at i' f l'
  end.

(** [Array.prototype.sort(cmp)]: a stable sort, in place.  An element is
    put before the first element of the sorted rest it does not compare
    greater than, so elements that compare equal keep their order. *)
Fixpoint sort_insert {A : Type} (cmp : A -> A -> Z) (x : A) (l : list A) : list A :=
  match l with
  | [] => [x]
  | y :: l' => if cmp x y <=? 0 then x :: y :: l' else y :: sort_insert cmp x l'
  end.

Definition js_sort {A : Type} (cmp : A -> A -> Z) (l : list A) : list A :=
  fold_right (sort_insert cmp) [] l.

(** [String.prototype.split(sep)] for a one-character separator. *)
Fixpoint split (sep : ascii) (s : string) : list string :=
  match s with
  | EmptyString => [EmptyString]
  | String c s' =>
      if Ascii.eqb c sep then EmptyString :: split sep s'
      else match split sep s' with
           | [] => [String c EmptyString]
           | w :: ws => String c w :: ws
           end
  end.

(** ** Data model *)

Module User.
(** A user record.  The in-memory records carry a numeric [id] and no
    [_id]; the documents of the User collection carry an [_id]. *)
Record t : Type := mk {
  id : jsval;
  _id : jsval;
  email : string;
  password : string;
  isAdmin : bool
}.
End User.

Module Image.
(** An image record.  [createdAt] is the creation instant in milliseconds:
    the in-memory branch stores [new Date().toISOString()] and reads it
    back with [new Date(...)], which returns the same instant. *)
Record t : Type := mk {
  _id : string;
  title : jsval;
  url : string;
  cloudinaryId : string;
  createdAt : Z
}.

Definition set_title (v : jsval) (i : t) : t :=
  mk (_id i) v (url i) (cloudinaryId i) (createdAt i).
End Image.

Module Claims.
(** The payload of a token: what [jwt.sign] is given at login plus the
    [iat] and [exp] claims the library adds (in seconds). *)
Record t : Type := mk {
  userId : jsval;
  email : string;
  isAdmin : bool;
  iat : Z;
  exp : option Z
}.
End Claims.

(** [process.env]. *)
Record env : Type := mkEnv {
  JWT_SECRET : option string
}.

(** An [initializeUsers] call that is suspended: the [await] it is at. *)
Inductive seed_call : Type :=
| AwaitFindOne
| AwaitHash
| AwaitCreate (hashedPassword : string).

(** A delete handler that is suspended at its [await] of the media host:
    what it does when it resumes.  The fallback branch keeps the index it
    found ([images.splice(imageIndex, 1)]), the other branch the id of the
    request ([Image.findByIdAndDelete(id)]). *)
Inductive pending_delete : Type :=
| SpliceAt (imageIndex : nat)
| DeleteDoc (id : string).

(** A call in flight. *)
Inductive continuation : Type :=
| Seeding (c : seed_call)
| Deleting (d : pending_delete).

(** The process state: the three module-level variables of index.js, whether
    the promise of [mongoose.connect] is still pending, the two collections
    of the database, the files of the [uploads/] directory, and the calls
    that are suspended at an [await] between a read and a write of a
    store. *)
Record state : Type := mkState {
  mongoConnected : bool;
  connectPending : bool;
  users : list User.t;
  images : list Image.t;
  db_users : list User.t;
  db_images : list Image.t;
  uploads : list string;
  inflight : list continuation
}.

Definition set_mongoConnected (b : bool) (st : state) : state :=
  mkState b (connectPending st) (users st) (images st) (db_users st) (db_images st) (uploads st)
          (inflight st).

Definition set_connectPending (b : bool) (st : state) : state :=
  mkState (mongoConnected st) b (users st) (images st) (db_users st) (db_images st) (uploads st)
          (inflight st).

Definition set_users (l : list User.t) (st : state) : state :=
  mkState (mongoConnected st) (connectPending st) l (images st) (db_users st) (db_images st)
          (uploads st) (inflight st).

Definition set_images (l : list Image.t) (st : state) : state :=
  mkState (mongoConnected st) (connectPending st) (users st) l (db_users st) (db_images st)
          (uploads st) (inflight st).

Definition set_db_users (l : list User.t) (st : state) : state :=
  mkState (mongoConnected st) (connectPending st) (users st) (images st) l (db_images st)
          (uploads st) (inflight st).

Definition set_db_images (l : list Image.t) (st : state) : state :=
  mkState (mongoConnected st) (connectPending st) (users st) (images st) (db_users st) l
          (uploads st) (inflight st).

Definition set_uploads (l : list string) (st : state) : state :=
  mkState (mongoConnected st) (connectPending st) (users st) (images st) (db_users st)
          (db_images st) l (inflight st).

Definition set_inflight (l : list continuation) (st : state) : state :=
  mkState (mongoConnected st) (connectPending st) (users st) (images st) (db_users st)
          (db_images st) (uploads st) l.

(** The state when the module has been loaded: nothing connected yet, empty
    fallback arrays, no call in flight; the database and the directory hold
    what earlier runs left there. *)
Definition init_state (dbu : list User.t) (dbi : list Image.t) (files : list string) : state :=
  mkState false true [] [] dbu dbi files [].

(** The store backends. *)
Inductive backend : Type := InMemory | Persistent.

(** The backend a handler picks when it reads [mongoConnected]. *)
Definition backend_of (st : state) : backend :=
  if mongoConnected st then Persistent else InMemory.

(** The image store that backend holds. *)
Definition active_images (st : state) : list Image.t :=
  if mongoConnected st then db_images st else images st.

Definition inactive_images (st : state) : list Image.t :=
  if mongoConnected st then images st else db_images st.

(** ** Outcomes of the external calls of one request *)

Record world : Type := mkWorld {
  (** [Date.now()] in milliseconds *)
  now : Z;
  (** the later clock read of [new Date()] in the in-memory upload branch *)
  now_created : Z;
  (** whether the database operations of this request succeed *)
  db_ok : bool;
  db_error : string;
  (** the ObjectId the driver gives a new document *)
  new_oid : string;
  (** [cloudinary.uploader.upload]: [secure_url] and [public_id] *)
  cloud_upload : result (string * string);
  (** [cloudinary.uploader.destroy] *)
  cloud_destroy : result unit
}.

(** ** Responses *)

Inductive body : Type :=
| Message (message : string)
| MessageError (message error : string)
| TokenBody (token : string) (isAdmin : bool)
| ImageBody (i : Image.t)
| ImageList (l : list Image.t)
| ErrorPage (msg : string).

Record response : Type := mkResponse {
  status : Z;
  json : body
}.

(** ** Cryptographic primitives

    Password hashing and token signing are external libraries (bcryptjs,
    jsonwebtoken).  Their cryptographic core is an interface; what the
    libraries do around it (argument checks, the [iat] and [exp] claims, the
    expiry test) is written out below. *)

Class Crypto : Type := {
  (** whether a password matches a stored hash *)
  bcrypt_compare : string -> string -> bool;
  (** the compact serialisation of a payload signed with a key *)
  jws_encode : Claims.t -> string -> string;
  (** parse a token and check its signature against a key *)
  jws_decode : string -> string -> option Claims.t
}.

(** The contract of signing: a token decodes, under the key it was signed
    with, to the payload that was signed. *)
Class CryptoLaws (C : Crypto) : Prop := {
  jws_roundtrip : forall (c : Claims.t) (k : string), jws_decode (jws_encode c k) k = Some c
}.

(** [Math.floor(ms / 1000)]. *)
Definition seconds (ms : Z) : Z := ms / 1000.

(** [expiresIn: '24h'], in seconds. *)
Definition expiresIn_24h : Z := 86400.

Inductive jwt_error : Type := JsonWebTokenError | TokenExpiredError.

(** [process.env.JWT_SECRET || 'your_jwt_secret'], the key of [jwt.verify]. *)
Definition verify_secret (e : env) : string :=
  match JWT_SECRET e with
  | Some s => if String.eqb s "" then "your_jwt_secret" else s
  | None => "your_jwt_secret"
  end.

(** [process.env.JWT_SECRET], the key of [jwt.sign]. *)
Definition sign_secret (e : env) : option string := JWT_SECRET e.

Section Handlers.

Context {C : Crypto}.

(** [bcrypt.compare(password, hash)]: rejects when the password is not a
    string. *)
Definition bcrypt_compare_js (password : jsval) (hash : string) : result bool :=
  match password with
  | JStr s => Ok (bcrypt_compare s hash)
  | _ => Throw "Illegal arguments"
  end.

(** [jwt.sign(payload, secret, { expiresIn })]: throws when the key is
    missing or empty, otherwise stamps [iat] and [exp] and signs. *)
Definition jwt_sign (userId : jsval) (email : string) (isAdmin : bool)
    (secret : option string) (expiresIn : Z) (now_ms : Z) : result string :=
  match secret with
  | None => Throw "secretOrPrivateKey must have a value"
  | Some k =>
      if String.eqb k "" then Throw "secretOrPrivateKey must have a value"
      else
        let iat := seconds now_ms in
        Ok (jws_encode (Claims.mk userId email isAdmin iat (Some (iat + expiresIn))) k)
  end.

(** [jwt.verify(token, secret, callback)]: the error or the decoded
    payload handed to the callback. *)
Definition jwt_verify (token secret : string) (now_ms : Z) : jwt_error + Claims.t :=
  match jws_decode token secret with
  | None => inl JsonWebTokenError
  | Some c =>
      match Claims.exp c with
      | Some e => if e <=? seconds now_ms then inl TokenExpiredError else inr c
      | None => inr c
      end
  end.

(** *** Authentication middleware *)

(** [authHeader && authHeader.split(' ')[1]]; [None] is [undefined]. *)
Definition header_token (authHeader : option string) : option string :=
  match authHeader with
  | None => None
  | Some h => if String.eqb h "" then Some "" else nth_error (split " "%char h) 1
  end.

(** [authenticateToken]: a response, or [next()] with [req.user] set. *)
Definition authenticateToken (e : env) (w : world) (authHeader : option string)
    : response + Claims.t :=
  match header_token authHeader with
  | None => inl (mkResponse 401 (Message "Access denied"))
  | Some token =>
      if String.eqb token "" then inl (mkResponse 401 (Message "Access denied"))
      else
        match jwt_verify token (verify_secret e) (now w) with
        | inl _ => inl (mkResponse 403 (Message "Invalid token"))
        | inr user => inr user
        end
  end.

(** [isAdmin]: a response, or [next()]. *)
Definition isAdmin (user : Claims.t) : response + Claims.t :=
  if negb (Claims.isAdmin user) then inl (mkResponse 403 (Message "Admin access required"))
  else inr user.

(** The chain [authenticateToken, isAdmin] in front of the three
    admin-only routes. *)
Definition admin_gate (e : env) (w : world) (authHeader : option string)
    : response + Claims.t :=
  match authenticateToken e w authHeader with
  | inl res => inl res
  | inr user => isAdmin user
  end.

(** *** Credential store *)

(** [User.findOne({ email })] on the collection, or
    [users.find(u => u.email === email)] on the array.  No stored email
    equals a value that is not a string. *)
Definition find_user (st : state) (w : world) (email : jsval) : result (option User.t) :=
  if mongoConnected st then
    if db_ok w then Ok (find (fun u => str_strict_eq (User.email u) email) (db_users st))
    else Throw (db_error w)
  else Ok (find (fun u => str_strict_eq (User.email u) email) (users st)).

(** *** POST /api/login

    [mc_sign] is the value of [mongoConnected] when the payload is built,
    after the awaits of the handler. *)
Definition login (e : env) (w : world) (st : state) (mc_sign : bool)
    (email password : jsval) : response :=
  match find_user st w email with
  | Throw _ => mkResponse 500 (Message "Server error")
  | Ok None => mkResponse 401 (Message "Invalid credentials")
  | Ok (Some user) =>
      match bcrypt_compare_js password (User.password user) with
      | Throw _ => mkResponse 500 (Message "Server error")
      | Ok false => mkResponse 401 (Message "Invalid credentials")
      | Ok true =>
          match jwt_sign (if mc_sign then User._id user else User.id user)
                         (User.email user) (User.isAdmin user)
                         (sign_secret e) expiresIn_24h (now w) with
          | Throw _ => mkResponse 500 (Message "Server error")
          | Ok token => mkResponse 200 (TokenBody token (User.isAdmin user))
          end
      end
  end.

(** *** GET /api/images *)

(** [(a, b) => new Date(b.createdAt) - new Date(a.createdAt)]. *)
Definition by_createdAt_desc (a b : Image.t) : Z := Image.createdAt b - Image.createdAt a.

(** [Image.find().sort({ createdAt: -1 })] answers from the collection;
    [images.sort(...)] sorts the array itself and answers with it. *)
Definition list_images (st : state) (w : world) : state * response :=
  if mongoConnected st then
    if db_ok w then (st, mkResponse 200 (ImageList (js_sort by_createdAt_desc (db_images st))))
    else (st, mkResponse 500 (MessageError "Error fetching images" (db_error w)))
  else
    let sorted := js_sort by_createdAt_desc (images st) in
    (set_images sorted st, mkResponse 200 (ImageList sorted)).

(** *** POST /api/images/upload *)

(** What [upload.single('file')] makes of the multipart body: an error, or
    [req.body.title] and [req.file] (its path), the file then being on disk. *)
Inductive multer_outcome : Type :=
| MulterError (msg : string)
| MulterOk (title : jsval) (file : option string).

Definition multer_store (file : option string) (st : state) : state :=
  match file with
  | Some path =>
      if existsb (String.eqb path) (uploads st) then st
      else set_uploads (path :: uploads st) st
  | None => st
  end.

(** [fs.unlinkSync(path)]. *)
Definition unlinkSync (path : string) (files : list string) : result (list string) :=
  if existsb (String.eqb path) files
  then Ok (filter (fun f => negb (String.eqb f path)) files)
  else Throw "ENOENT: no such file or directory".

(** The schema's [required: true] on a string path. *)
Definition required (s : string) : bool := negb (String.eqb s "").

(** [newImage.save()]: validation, then the insert. *)
Definition save_image (w : world) (i : Image.t) (docs : list Image.t) : result (list Image.t) :=
  if negb (db_ok w) then Throw (db_error w)
  else if nonempty_string (Image.title i) && required (Image.url i) && required (Image.cloudinaryId i)
  then Ok (docs ++ [i])
  else Throw "Image validation failed".

Definition upload_handler (st : state) (w : world) (title : jsval) (file : option string)
    : state * response :=
  match file with
  | None => (st, mkResponse 400 (Message "No file uploaded"))
  | Some path =>
      match cloud_upload w with
      | Throw msg => (st, mkResponse 500 (MessageError "Error uploading image" msg))
      | Ok (secure_url, public_id) =>
          match unlinkSync path (uploads st) with
          | Throw msg => (st, mkResponse 500 (MessageError "Error uploading image" msg))
          | Ok files =>
              let st1 := set_uploads files st in
              if mongoConnected st then
                let newImage :=
                  Image.mk (new_oid w) (js_or title (JStr "Untitled")) secure_url public_id (now w) in
                match save_image w newImage (db_images st) with
                | Throw msg => (st1, mkResponse 500 (MessageError "Error uploading image" msg))
                | Ok docs => (set_db_images docs st1, mkResponse 200 (ImageBody newImage))
                end
              else
                let newImage :=
                  Image.mk (toString (now w)) (js_or title (JStr "Untitled")) secure_url public_id
                           (now_created w) in
                (set_images (images st ++ [newImage]) st1, mkResponse 200 (ImageBody newImage))
          end
      end
  end.

(** *** Ids of the Image collection

    A document is addressed by an ObjectId, which the driver prints as 24
    lower-case hexadecimal digits.  Before a query by id is sent, the [:id]
    of the request is cast to an ObjectId: 24 hexadecimal digits, in either
    case, denote one; any other string is refused with a CastError (strings
    of 12 characters, which earlier drivers also took, included). *)

Definition isHexDigit (c : ascii) : bool :=
  let n := nat_of_ascii c in
  (((48 <=? n) && (n <=? 57)) || ((65 <=? n) && (n <=? 70)) || ((97 <=? n) && (n <=? 102)))%nat.

Fixpoint all_hex (s : string) : bool :=
  match s with
  | EmptyString => true
  | String c s' => isHexDigit c && all_hex s'
  end.

Definition isObjectId (s : string) : bool := (String.length s =? 24)%nat && all_hex s.

Definition quote : string := String (ascii_of_nat 34) EmptyString.

(** The message of the CastError. *)
Definition cast_error (id : string) : string :=
  String.append "Cast to ObjectId failed for value "
    (String.append quote (String.append id (String.append quote
       (String.append " (type string) at path "
          (String.append quote (String.append "_id" (String.append quote
             (String.append " for model "
                (String.append quote (String.append "Image" quote)))))))))).

Definition has_id (id : string) (img : Image.t) : bool := String.eqb (Image._id img) id.

(** The query [{ _id: id }]: the position of the document found, if any.
    The collection holds nothing but printed ObjectIds, so an id spelled as
    the collection holds it passes the cast and finds its document; any
    other id is cast, and compared by the ObjectId it denotes. *)
Definition findById (w : world) (id : string) (docs : list Image.t) : result (option nat) :=
  match findIndex (has_id id) docs with
  | Some i => if db_ok w then Ok (Some i) else Throw (db_error w)
  | None =>
      if isObjectId id then
        if db_ok w then Ok (findIndex (has_id (toLowerCase id)) docs) else Throw (db_error w)
      else Throw (cast_error id)
  end.

(** *** PUT /api/images/:id *)

(** How the update [{ title }] lands on a document: an undefined key is
    dropped from the update, the other scalar values are cast to the
    schema's String (a number by [Number.prototype.toString]); validators
    do not run on updates. *)
Definition cast_title_update (v old : jsval) : jsval :=
  match v with
  | JUndefined => old
  | JNull => JNull
  | JBool b => JStr (if b then "true" else "false")
  | JNum n => JStr (Number_toString n)
  | JStr s => JStr s
  end.

Definition update_handler (st : state) (w : world) (id : string) (title : jsval)
    : state * response :=
  if mongoConnected st then
    match findById w id (db_images st) with
    | Throw msg => (st, mkResponse 500 (MessageError "Error updating image" msg))
    | Ok None => (st, mkResponse 404 (Message "Image not found"))
    | Ok (Some i) =>
        let docs :=
          update_at i (fun d => Image.set_title (cast_title_update title (Image.title d)) d)
                    (db_images st) in
        match nth_error docs i with
        | Some updatedImage => (set_db_images docs st, mkResponse 200 (ImageBody updatedImage))
        | None => (st, mkResponse 404 (Message "Image not found"))
        end
    end
  else
    match findIndex (has_id id) (images st) with
    | None => (st, mkResponse 404 (Message "Image not found"))
    | Some imageIndex =>
        let imgs := update_at imageIndex (Image.set_title title) (images st) in
        match nth_error imgs imageIndex with
        | Some img => (set_images imgs st, mkResponse 200 (ImageBody img))
        | None => (st, mkResponse 500 (MessageError "Error updating image" "undefined"))
        end
    end.

(** *** DELETE /api/images/:id

    The handler looks the record up, awaits the media host, and only then
    removes the record: by the index it found before the await in the
    fallback branch, by the id of the request in the other.  It is written
    in these two parts. *)

(** [if (image.cloudinaryId) await cloudinary.uploader.destroy(...)]. *)
Definition destroy_remote (w : world) (image : Image.t) : result unit :=
  if required (Image.cloudinaryId image) then cloud_destroy w else Ok tt.

(** Up to the media host: an answer, or the record found and what is left
    to do. *)
Definition delete_lookup (st : state) (w : world) (id : string)
    : response + Image.t * pending_delete :=
  if mongoConnected st then
    match findById w id (db_images st) with
    | Throw msg => inl (mkResponse 500 (MessageError "Error deleting image" msg))
    | Ok None => inl (mkResponse 404 (Message "Image not found"))
    | Ok (Some i) =>
        match nth_error (db_images st) i with
        | None => inl (mkResponse 404 (Message "Image not found"))
        | Some image => inr (image, DeleteDoc id)
        end
    end
  else
    match findIndex (has_id id) (images st) with
    | None => inl (mkResponse 404 (Message "Image not found"))
    | Some imageIndex =>
        match nth_error (images st) imageIndex with
        | None => inl (mkResponse 404 (Message "Image not found"))
        | Some image => inr (image, SpliceAt imageIndex)
        end
    end.

(** From the answer of the media host on, in the state as it is by then. *)
Definition delete_finish (st : state) (w : world) (d : pending_delete) (destroyed : result unit)
    : state * response :=
  match destroyed with
  | Throw msg => (st, mkResponse 500 (MessageError "Error deleting image" msg))
  | Ok _ =>
      match d with
      | SpliceAt imageIndex =>
          (set_images (splice1 imageIndex (images st)) st,
           mkResponse 200 (Message "Image deleted successfully"))
      | DeleteDoc id =>
          match findById w id (db_images st) with
          | Throw msg => (st, mkResponse 500 (MessageError "Error deleting image" msg))
          | Ok None => (st, mkResponse 200 (Message "Image deleted successfully"))
          | Ok (Some i) =>
              (set_db_images (splice1 i (db_images st)) st,
               mkResponse 200 (Message "Image deleted successfully"))
          end
      end
  end.

(** The handler when nothing else is served while it awaits. *)
Definition delete_handler (st : state) (w : world) (id : string) : state * response :=
  match delete_lookup st w id with
  | inl res => (st, res)
  | inr (image, d) => delete_finish st w d (destroy_remote w image)
  end.

(** *** The routes *)

Inductive request : Type :=
| Login (email password : jsval)
| ListImages
| Upload (authorization : option string) (m : multer_outcome)
| UpdateTitle (authorization : option string) (id : string) (title : jsval)
| DeleteImage (authorization : option string) (id : string).

Definition handle (e : env) (st : state) (r : request) (w : world) : state * response :=
  match r with
  | Login email password => (st, login e w st (mongoConnected st) email password)
  | ListImages => list_images st w
  | Upload h m =>
      match admin_gate e w h with
      | inl res => (st, res)
      | inr _ =>
          match m with
          | MulterError msg => (st, mkResponse 500 (ErrorPage msg))
          | MulterOk title file => upload_handler (multer_store file st) w title file
          end
      end
  | UpdateTitle h id title =>
      match admin_gate e w h with
      | inl res => (st, res)
      | inr _ => update_handler st w id title
      end
  | DeleteImage h id =>
      match admin_gate e w h with
      | inl res => (st, res)
      | inr _ => delete_handler st w id
      end
  end.

(** *** Start-up and the life of the process *)

(** [initializeUsers], from one [await] to the next: the call resumes with
    the outcome of what it awaited and runs until it awaits again ([Some]
    call) or returns.  [User.findOne] answers from the collection as it is
    when the query is served; [User.create] inserts when the database
    accepts the document, which it does not when it is unreachable or when
    the unique index on [email] is in place and the collection has an admin
    already.  Every failure is caught and logged. *)
Definition initializeUsers (w : world) (hash : result string) (c : seed_call) (st : state)
    : state * option seed_call :=
  match c with
  | AwaitFindOne =>
      if negb (db_ok w) then (st, None)
      else
        match find (fun u => String.eqb (User.email u) "admin@gmail.com") (db_users st) with
        | Some _ => (st, None)
        | None => (st, Some AwaitHash)
        end
  | AwaitHash =>
      match hash with
      | Throw _ => (st, None)
      | Ok hashedPassword => (st, Some (AwaitCreate hashedPassword))
      end
  | AwaitCreate hashedPassword =>
      if negb (db_ok w) then (st, None)
      else
        (set_db_users
           (db_users st ++
            [User.mk (JStr (new_oid w)) (JStr (new_oid w)) "admin@gmail.com" hashedPassword true])
           st,
         None)
  end.

(** [initializeInMemoryUsers]: the array is assigned once both hashes are
    there. *)
Definition initializeInMemoryUsers (hashAdmin hashUser : result string) (st : state) : state :=
  match hashAdmin, hashUser with
  | Ok hashedAdminPassword, Ok hashedUserPassword =>
      set_users
        [User.mk (JNum 1) JUndefined "admin@gmail.com" hashedAdminPassword true;
         User.mk (JNum 2) JUndefined "user@gmail.com" hashedUserPassword false]
        st
  | _, _ => st
  end.

(** What happens to the process.  [ConnectFulfilled]: the promise of
    [mongoose.connect] is fulfilled.  [ConnectRejected]: it was rejected and
    [initializeInMemoryUsers], started from the [catch] callback, has both
    its hashes (nothing in the state changes between the rejection and that
    moment).  [Request]: a request is served, with nothing else served
    while its handler awaits.  [DeleteReceived]: a DELETE request is served
    up to the point where its handler awaits the media host.  [Resume]: the
    call in flight at position [k] gets the outcome it awaits and goes on. *)
Inductive event : Type :=
| ConnectFulfilled
| ConnectRejected (hashAdmin hashUser : result string)
| Request (r : request) (w : world)
| DeleteReceived (authorization : option string) (id : string) (w : world)
| Resume (k : nat) (w : world) (hash : result string).

(** One event.  The promise settles once: [None] when it is settled again,
    and when there is no call to resume at the position.  On fulfilment
    [initializeUsers] is called from the ['open'] listener and from the
    [then] callback, which also sets the flag; both calls are in flight
    from then on. *)
Definition step (e : env) (st : state) (ev : event) : option (state * option response) :=
  match ev with
  | ConnectFulfilled =>
      if connectPending st then
        Some (set_inflight (inflight st ++ [Seeding AwaitFindOne; Seeding AwaitFindOne])
                (set_mongoConnected true (set_connectPending false st)),
              None)
      else None
  | ConnectRejected hashAdmin hashUser =>
      if connectPending st then
        Some (initializeInMemoryUsers hashAdmin hashUser (set_connectPending false st), None)
      else None
  | Request r w =>
      let (st', res) := handle e st r w in Some (st', Some res)
  | DeleteReceived h id w =>
      match admin_gate e w h with
      | inl res => Some (st, Some res)
      | inr _ =>
          match delete_lookup st w id with
          | inl res => Some (st, Some res)
          | inr (image, d) =>
              if required (Image.cloudinaryId image)
              then Some (set_inflight (inflight st ++ [Deleting d]) st, None)
              else let (st', res) := delete_finish st w d (Ok tt) in Some (st', Some res)
          end
      end
  | Resume k w hash =>
      match nth_error (inflight st) k with
      | None => None
      | Some (Deleting d) =>
          let (st', res) :=
            delete_finish (set_inflight (splice1 k (inflight st)) st) w d (cloud_destroy w) in
          Some (st', Some res)
      | Some (Seeding c) =>
          match initializeUsers w hash c st with
          | (st', Some c') =>
              Some (set_inflight (update_at k (fun _ => Seeding c') (inflight st)) st', None)
          | (st', None) => Some (set_inflight (splice1 k (inflight st)) st', None)
          end
      end
  end.

(** Whether the handler of an event reads [mongoConnected]. *)
Definition serves (ev : event) : bool :=
  match ev with
  | Request _ _ | DeleteReceived _ _ _ => true
  | _ => false
  end.

(** A run of the process: the final state, the backend each request was
    served from (the value of [mongoConnected] its handler read) and the
    responses, in order. *)
Fixpoint run (e : env) (st : state) (evs : list event)
    : option (state * list backend * list response) :=
  match evs with
  | [] => Some (st, [], [])
  | ev :: evs' =>
      match step e st ev with
      | None => None
      | Some (st', res) =>
          match run e st' evs' with
          | None => None
          | Some (st'', log, out) =>
              Some (st'',
                    if serves ev then backend_of st :: log else log,
                    match res with Some r => r :: out | None => out end)
          end
      end
  end.

End Handlers.

(** ** A reference instance of the primitives

    A transparent stand-in for the two libraries, used to run the handlers
    on concrete requests: a hash is the password behind a fixed prefix, and
    a token spells out its key and its payload field by field. *)

Module Toy.

Definition bind {A B : Type} (a : option A) (f : A -> option B) : option B :=
  match a with
  | Some x => f x
  | None => None
  end.

(** Lengths in unary. *)
Fixpoint enc_nat (n : nat) (rest : string) : string :=
  match n with
  | O => String "0" rest
  | S n' => String "1" (enc_nat n' rest)
  end.

Fixpoint dec_nat (s : string) : option (nat * string) :=
  match s with
  | EmptyString => None
  | String c r =>
      if Ascii.eqb c "0" then Some (O, r)
      else if Ascii.eqb c "1" then bind (dec_nat r) (fun '(n, r') => Some (S n, r'))
      else None
  end.

(** Integers in binary, lowest bit first. *)
Fixpoint enc_pos (p : positive) (rest : string) : string :=
  match p with
  | xH => String "." rest
  | xO q => String "0" (enc_pos q rest)
  | xI q => String "1" (enc_pos q rest)
  end.

Fixpoint dec_pos (s : string) : option (positive * string) :=
  match s with
  | EmptyString => None
  | String c r =>
      if Ascii.eqb c "." then Some (xH, r)
      else if Ascii.eqb c "0" then bind (dec_pos r) (fun '(q, r') => Some (xO q, r'))
      else if Ascii.eqb c "1" then bind (dec_pos r) (fun '(q, r') => Some (xI q, r'))
      else None
  end.

Definition enc_Z (z : Z) (rest : string) : string :=
  match z with
  | Z0 => String "z" rest
  | Zpos p => String "+" (enc_pos p rest)
  | Zneg p => String "-" (enc_pos p rest)
  end.

Definition dec_Z (s : string) : option (Z * string) :=
  match s with
  | EmptyString => None
  | String c r =>
      if Ascii.eqb c "z" then Some (Z0, r)
      else if Ascii.eqb c "+" then bind (dec_pos r) (fun '(p, r') => Some (Zpos p, r'))
      else if Ascii.eqb c "-" then bind (dec_pos r) (fun '(p, r') => Some (Zneg p, r'))
      else None
  end.

Fixpoint take_drop (n : nat) (s : string) : option (string * string) :=
  match n with
  | O => Some (EmptyString, s)
  | S n' =>
      match s with
      | EmptyString => None
      | String c r => bind (take_drop n' r) (fun '(a, b) => Some (String c a, b))
      end
  end.

Definition enc_str (s rest : string) : string :=
  enc_nat (String.length s) (String.append s rest).

Definition dec_str (s : string) : option (string * string) :=
  bind (dec_nat s) (fun '(n, r) => take_drop n r).

Definition enc_bool (b : bool) (rest : string) : string :=
  String (if b then "t" else "f")%char rest.

Definition dec_bool (s : string) : option (bool * string) :=
  match s with
  | EmptyString => None
  | String c r =>
      if Ascii.eqb c "t" then Some (true, r)
      else if Ascii.eqb c "f" then Some (false, r)
      else None
  end.

Definition enc_jsval (v : jsval) (rest : string) : string :=
  match v with
  | JUndefined => String "u" rest
  | JNull => String "n" rest
  | JBool b => String "b" (enc_bool b rest)
  | JNum n => String "#" (enc_Z n rest)
  | JStr s => String "s" (enc_str s rest)
  end.

Definition dec_jsval (s : string) : option (jsval * string) :=
  match s with
  | EmptyString => None
  | String c r =>
      if Ascii.eqb c "u" then Some (JUndefined, r)
      else if Ascii.eqb c "n" then Some (JNull, r)
      else if Ascii.eqb c "b" then bind (dec_bool r) (fun '(b, r') => Some (JBool b, r'))
      else if Ascii.eqb c "#" then bind (dec_Z r) (fun '(n, r') => Some (JNum n, r'))
      else if Ascii.eqb c "s" then bind (dec_str r) (fun '(x, r') => Some (JStr x, r'))
      else None
  end.

Definition enc_exp (x : option Z) (rest : string) : string :=
  match x with
  | None => String "n" rest
  | Some z => String "e" (enc_Z z rest)
  end.

Definition dec_exp (s : string) : option (option Z * string) :=
  match s with
  | EmptyString => None
  | String c r =>
      if Ascii.eqb c "n" then Some (None, r)
      else if Ascii.eqb c "e" then bind (dec_Z r) (fun '(z, r') => Some (Some z, r'))
      else None
  end.

Definition encode (c : Claims.t) (k : string) : string :=
  enc_str k
    (enc_jsval (Claims.userId c)
       (enc_str (Claims.email c)
          (enc_bool (Claims.isAdmin c)
             (enc_Z (Claims.iat c)
                (enc_exp (Claims.exp c) EmptyString))))).

Definition decode (token k : string) : option Claims.t :=
  bind (dec_str token) (fun '(k', r1) =>
  if negb (String.eqb k' k) then None else
  bind (dec_jsval r1) (fun '(userId, r2) =>
  bind (dec_str r2) (fun '(email, r3) =>
  bind (dec_bool r3) (fun '(isAdmin, r4) =>
  bind (dec_Z r4) (fun '(iat, r5) =>
  bind (dec_exp r5) (fun '(exp, r6) =>
  match r6 with
  | EmptyString => Some (Claims.mk userId email isAdmin iat exp)
  | String _ _ => None
  end)))))).

Definition hash (password : string) : string := String.append "hash:" password.

Definition compare (password h : string) : bool := String.eqb h (hash password).

#[global] Instance crypto : Crypto := {|
  bcrypt_compare := compare;
  jws_encode := encode;
  jws_decode := decode
|}.

End Toy.

(** ** Sample configurations, states and requests *)

Module Sample.

Definition env_set : env := mkEnv (Some "s3cret").

Definition env_unset : env := mkEnv None.

(** A world at clock [t] (and [t'] at the second read) in which every
    external call succeeds; the media host answers with [name]. *)
Definition world_at (t t' : Z) (name : string) : world :=
  mkWorld t t' true "" "65f0c0ffee65f0c0ffee0001"
    (Ok (String.append "https://res.cloudinary.com/demo/" name,
         String.append "image-gallery/" name))
    (Ok tt).

Definition admin : User.t :=
  User.mk (JNum 1) JUndefined "admin@gmail.com" (Toy.hash "admin123") true.

Definition user : User.t :=
  User.mk (JNum 2) JUndefined "user@gmail.com" (Toy.hash "password123") false.

(** The process after the connection attempt has failed and the fallback
    users have been seeded. *)
Definition fallback : state := mkState false false [admin; user] [] [] [] [] [].

(** The tokens the login route issues to the two seeded users at clock
    1000 ms under [env_set]. *)
Definition admin_token : string :=
  Toy.encode (Claims.mk (JNum 1) "admin@gmail.com" true 1 (Some 86401)) "s3cret".

Definition user_token : string :=
  Toy.encode (Claims.mk (JNum 2) "user@gmail.com" false 1 (Some 86401)) "s3cret".

Definition bearer (token : string) : option string := Some (String.append "Bearer " token).

(** Two uploads by the admin that are served within the same millisecond:
    the clock ticks from 999 to 1000 between the two reads of the first
    handler, and still reads 1000 in the second. *)
Definition first_image : Image.t :=
  Image.mk "999" (JStr "First") "https://res.cloudinary.com/demo/a" "image-gallery/a" 1000.

Definition second_image : Image.t :=
  Image.mk "1000" (JStr "Second") "https://res.cloudinary.com/demo/b" "image-gallery/b" 1000.

Definition upload_first : event :=
  Request (Upload (bearer admin_token) (MulterOk (JStr "First") (Some "uploads/999-a.png")))
          (world_at 999 1000 "a").

Definition upload_second : event :=
  Request (Upload (bearer admin_token) (MulterOk (JStr "Second") (Some "uploads/1000-b.png")))
          (world_at 1000 1000 "b").

(** The fallback process with the temporary files of two uploads on disk,
    and the records those uploads create at clocks 1000 and 2000. *)
Definition staged : state :=
  set_uploads ["uploads/1000-a.png"; "uploads/2000-b.png"] fallback.

Definition older_image : Image.t :=
  Image.mk "1000" (JStr "Older") "https://res.cloudinary.com/demo/a" "image-gallery/a" 1000.

Definition newer_image : Image.t :=
  Image.mk "2000" (JStr "Newer") "https://res.cloudinary.com/demo/b" "image-gallery/b" 2000.

(** An upload served in the same millisecond as [upload_second], both
    clock reads included. *)
Definition twin_image : Image.t :=
  Image.mk "1000" (JStr "Twin") "https://res.cloudinary.com/demo/a" "image-gallery/a" 1000.

Definition upload_twin : event :=
  Request (Upload (bearer admin_token) (MulterOk (JStr "Twin") (Some "uploads/1000-a.png")))
          (world_at 1000 1000 "a").

(** A document left in the Image collection by an earlier run. *)
Definition old_doc : Image.t :=
  Image.mk "65f0c0ffee65f0c0ffee0000" (JStr "Harbour") "https://res.cloudinary.com/demo/h"
           "image-gallery/h" 500.

(** The process connected to a database that holds one image. *)
Definition connected : state :=
  mkState true false [] []
    [User.mk (JStr "65f0c0ffee65f0c0ffee0001") (JStr "65f0c0ffee65f0c0ffee0001")
             "admin@gmail.com" (Toy.hash "admin123") true]
    [old_doc] [] [].

End Sample.

(** ** Predicates of the specification *)

(** Ordered by creation time, newest first. *)
Definition newest_first (l : list Image.t) : Prop :=
  StronglySorted (fun a b => Image.createdAt a >= Image.createdAt b) l.

(** Creation times strictly increasing along the list. *)
Definition strictly_older_first (l : list Image.t) : Prop :=
  StronglySorted (fun a b => Image.createdAt a < Image.createdAt b) l.

(** A chain of successful uploads: [inserts st l st'] when serving them one
    after the other from [st] creates the records [l], in this order, and
    ends in [st']. *)
Inductive inserts : state -> list Image.t -> state -> Prop :=
| inserts_nil : forall st, inserts st [] st
| inserts_cons : forall st w title file i st1 l st2,
    upload_handler st w title file = (st1, mkResponse 200 (ImageBody i)) ->
    inserts st1 l st2 ->
    inserts st (i :: l) st2.

(** The ids of the records of a store. *)
Definition ids (l : list Image.t) : list string := map Image._id l.

(** Every record of a store has a non-empty string as its title. *)
Definition titles_ok (l : list Image.t) : bool :=
  forallb (fun i => nonempty_string (Image.title i)) l.

(** Two states that differ at most in the store that is not in use. *)
Definition same_active (st1 st2 : state) : Prop :=
  mongoConnected st1 = mongoConnected st2 /\
  connectPending st1 = connectPending st2 /\
  uploads st1 = uploads st2 /\
  inflight st1 = inflight st2 /\
  if mongoConnected st1
  then db_users st1 = db_users st2 /\ db_images st1 = db_images st2
  else users st1 = users st2 /\ images st1 = images st2.

(** What no handler writes: the flag, the state of the connection promise,
    the users and the calls in flight. *)
Definition same_frame (st st' : state) : Prop :=
  mongoConnected st' = mongoConnected st /\
  connectPending st' = connectPending st /\
  users st' = users st /\
  db_users st' = db_users st /\
  inflight st' = inflight st.

(** The [initializeUsers] calls among the calls in flight. *)
Definition is_seeding (k : continuation) : bool :=
  match k with
  | Seeding _ => true
  | Deleting _ => false
  end.

Definition seeding_calls (st : state) : nat := List.length (filter is_seeding (inflight st)).

(** The [initializeUsers] calls a process can still start: the two of a
    fulfilled connection, while the promise is pending. *)
Definition calls_to_come (st : state) : nat := if connectPending st then 2%nat else 0%nat.

(** An admin document as [initializeUsers] creates it. *)
Definition admin_document (u : User.t) : Prop :=
  User.email u = "admin@gmail.com" /\ User.isAdmin u = true.


(** The users of the store that is not in use. *)
Definition inactive_users (st : state) : list User.t :=
  if mongoConnected st then users st else db_users st.

(** ** The upload filter and the staging file name (multer configuration) *)

(** [s.includes(pat)]: what [RegExp.prototype.test] decides for a pattern
    that is a plain word. *)
Fixpoint includes (pat s : string) : bool :=
  match s with
  | EmptyString => String.prefix pat EmptyString
  | String _ s' => String.prefix pat s || includes pat s'
  end.

(** [/jpeg|jpg|png|gif/.test(s)]. *)
Definition filetypes_test (s : string) : bool :=
  includes "jpeg" s || includes "jpg" s || includes "png" s || includes "gif" s.

(** The scan of [path.extname] (POSIX), from the last character of the path
    to the first.  [rest] holds the characters still to be read, last one
    first; [tail] is [path.slice(i + 1, end)]; [ended] is [end !== -1];
    [dot] is [path.slice(startDot, end)] once a dot has been met; [left]
    counts the characters of the last portion read after the dot was met,
    which is [startDot - startPart] when the scan stops. *)
Fixpoint extname_scan (rest : list ascii) (matchedSlash ended : bool) (tail : list ascii)
    (dot : option (list ascii)) (left : nat) (preDotState : Z) : string :=
  let finish :=
    match dot with
    | None => EmptyString
    | Some ext =>
        if negb ended then EmptyString
        else if preDotState =? 0 then EmptyString
        else if (preDotState =? 1) && (List.length ext =? 1)%nat && (left =? 1)%nat
        then EmptyString
        else string_of_list_ascii ext
    end in
  match rest with
  | [] => finish
  | c :: rest' =>
      if Ascii.eqb c "/" then
        if negb matchedSlash then finish
        else extname_scan rest' matchedSlash ended tail dot left preDotState
      else
        let tail0 := if ended then tail else [] in
        if Ascii.eqb c "." then
          match dot with
          | None => extname_scan rest' false true (c :: tail0) (Some (c :: tail0)) left preDotState
          | Some _ => extname_scan rest' false true (c :: tail0) dot (S left) 1
          end
        else
          match dot with
          | None => extname_scan rest' false true (c :: tail0) dot left preDotState
          | Some _ => extname_scan rest' false true (c :: tail0) dot (S left) (-1)
          end
  end.

(** [path.extname(p)]. *)
Definition extname (p : string) : string :=
  extname_scan (rev (list_ascii_of_string p)) true false [] None O 0.

(** [fileFilter]: [cb(null, true)] or [cb(new Error(...))]. *)
Definition fileFilter (mimetype originalname : string) : result bool :=
  if filetypes_test mimetype && filetypes_test (toLowerCase (extname originalname))
  then Ok true
  else Throw "Only image files are allowed!".

(** [limits.fileSize]: [5 * 1024 * 1024]. *)
Definition fileSize_limit : Z := 5 * 1024 * 1024.

(** [filename]: the name of the staging file, in [uploads/]. *)
Definition filename (now_ms : Z) (originalname : string) : string :=
  String.append (toString now_ms) (String.append "-" originalname).

(** A string with no space in it. *)
Fixpoint no_space (s : string) : bool :=
  match s with
  | EmptyString => true
  | String c s' => negb (Ascii.eqb c " ") && no_space s'
  end.

(** [Authorization: <scheme> <token>]. *)
Definition authorization (scheme token : string) : option string :=
  Some (String.append scheme (String " " token)).

(** The admin document [initializeUsers] looks for. *)
Definition find_admin (l : list User.t) : option User.t :=
  find (fun u => String.eqb (User.email u) "admin@gmail.com") l.

(** * Properties *)

(** ** The array sort *)

Section Sorting.

Variable A : Type.
Variable cmp : A -> A -> Z.

Lemma sort_insert_perm (x : A) (l : list A) :
  Permutation (sort_insert cmp x l) (x :: l).
Proof.
  induction l as [|y l IH]; simpl.
  - apply Permutation_refl.
  - destruct (cmp x y <=? 0).
    + apply Permutation_refl.
    + eapply perm_trans; [apply perm_skip, IH | apply perm_swap].
Qed.

Lemma js_sort_perm (l : list A) : Permutation (js_sort cmp l) l.
Proof.
  induction l as [|x l IH]; simpl.
  - apply perm_nil.
  - eapply perm_trans; [apply sort_insert_perm | apply perm_skip, IH].
Qed.

Lemma sort_insert_last (x : A) (l : list A) :
  Forall (fun y => 0 < cmp x y) l -> sort_insert cmp x l = l ++ [x].
Proof.
  induction 1 as [|y l Hy _ IH]; simpl.
  - reflexivity.
  - destruct (Z.leb_spec (cmp x y) 0); [lia | now rewrite IH].
Qed.

Lemma sort_insert_first (x : A) (l : list A) :
  Forall (fun y => cmp x y <= 0) l -> sort_insert cmp x l = x :: l.
Proof.
  destruct 1 as [|y l Hy _]; simpl.
  - reflexivity.
  - destruct (Z.leb_spec (cmp x y) 0); [reflexivity | lia].
Qed.

End Sorting.

Arguments sort_insert_perm {A}.
Arguments js_sort_perm {A}.
Arguments sort_insert_last {A}.
Arguments sort_insert_first {A}.

Lemma sort_insert_newest_first (x : Image.t) (l : list Image.t) :
  newest_first l -> newest_first (sort_insert by_createdAt_desc x l).
Proof.
  unfold newest_first.
  induction 1 as [|y l Hl IH Hy]; simpl.
  - constructor; constructor.
  - unfold by_createdAt_desc at 1.
    destruct (Z.leb_spec (Image.createdAt y - Image.createdAt x) 0) as [Hle|Hgt].
    + constructor.
      * constructor; assumption.
      * constructor; [lia|].
        eapply Forall_impl; [|exact Hy]. simpl. intros z Hz. lia.
    + constructor; [exact IH|].
      eapply Permutation_Forall.
      * apply Permutation_sym, sort_insert_perm.
      * constructor; [lia | exact Hy].
Qed.

Lemma js_sort_newest_first (l : list Image.t) :
  newest_first (js_sort by_createdAt_desc l).
Proof.
  induction l as [|x l IH]; simpl.
  - constructor.
  - apply sort_insert_newest_first, IH.
Qed.

(** Records inserted at strictly increasing instants come out in the
    reverse of their order of insertion. *)
Lemma js_sort_strictly_older_first (l : list Image.t) :
  strictly_older_first l -> js_sort by_createdAt_desc l = rev l.
Proof.
  unfold strictly_older_first.
  induction 1 as [|x l Hl IH Hx]; simpl.
  - reflexivity.
  - rewrite IH. apply sort_insert_last.
    apply Forall_rev. eapply Forall_impl; [|exact Hx].
    unfold by_createdAt_desc. simpl. intros y Hy. lia.
Qed.

(** The sort is stable: an array that is already newest first, ties
    included, is left as it is. *)
Lemma js_sort_fixes_sorted (l : list Image.t) :
  newest_first l -> js_sort by_createdAt_desc l = l.
Proof.
  unfold newest_first.
  induction 1 as [|x l Hl IH Hx]; simpl.
  - reflexivity.
  - rewrite IH. apply sort_insert_first.
    eapply Forall_impl; [|exact Hx].
    unfold by_createdAt_desc. simpl. intros y Hy. lia.
Qed.

(** ** Uploads and the listing *)

(** What a successful upload does to the stores. *)
Lemma upload_handler_created (st st' : state) (w : world) (title : jsval)
    (file : option string) (i : Image.t) :
  upload_handler st w title file = (st', mkResponse 200 (ImageBody i)) ->
  active_images st' = active_images st ++ [i] /\
  inactive_images st' = inactive_images st /\
  mongoConnected st' = mongoConnected st /\
  Image.createdAt i = (if mongoConnected st then now w else now_created w) /\
  Image.title i = js_or title (JStr "Untitled") /\
  exists path secure_url public_id,
    file = Some path /\ cloud_upload w = Ok (secure_url, public_id) /\
    Image.url i = secure_url /\ Image.cloudinaryId i = public_id.
Proof.
  unfold upload_handler, active_images, inactive_images, save_image.
  destruct file as [path|]; [|discriminate].
  destruct (cloud_upload w) as [[secure_url public_id]|msg]; [|discriminate].
  destruct (unlinkSync path (uploads st)) as [files|msg]; [|discriminate].
  destruct (mongoConnected st) eqn:Hmc.
  - destruct (negb (db_ok w)); [discriminate|].
    match goal with |- context [if ?b then Ok _ else _] => destruct b end; [|discriminate].
    intros H. injection H as <- <-. simpl. rewrite Hmc.
    repeat split; eauto 8.
  - intros H. injection H as <- <-. simpl. rewrite Hmc.
    repeat split; eauto 8.
Qed.

Lemma inserts_active (st st' : state) (news : list Image.t) :
  inserts st news st' ->
  active_images st' = active_images st ++ news /\ mongoConnected st' = mongoConnected st.
Proof.
  induction 1 as [st|st w title file i st1 l st2 Hup _ [IHa IHm]].
  - now rewrite app_nil_r.
  - apply upload_handler_created in Hup as (Ha & _ & Hm & _).
    rewrite IHa, Ha, IHm, Hm, <- app_assoc. auto.
Qed.

(** C5 (as amended): for every state of the active image store, the listing
    answers 200 with every record of the store exactly once (a permutation of
    the store), ordered by [createdAt] descending, and leaves the records of
    the store the same; after inserting N records in sequence into an empty
    store at strictly increasing creation times, the listing is those N
    records with the most recently inserted first. *)
Theorem C5_listAll_newest_first (st : state) (w : world) :
  (mongoConnected st = true -> db_ok w = true) ->
  exists st' l,
    list_images st w = (st', mkResponse 200 (ImageList l)) /\
    Permutation l (active_images st) /\
    newest_first l /\
    Permutation (active_images st') (active_images st) /\
    (forall st0 news,
        inserts st0 news st -> active_images st0 = [] -> strictly_older_first news ->
        l = rev news).
Proof.
  intros Hdb.
  assert (Hrev : forall st0 news,
             inserts st0 news st -> active_images st0 = [] -> strictly_older_first news ->
             js_sort by_createdAt_desc (active_images st) = rev news).
  { intros st0 news Hins Hempty Hnews.
    apply inserts_active in Hins as [Ha _].
    rewrite Ha, Hempty. now apply js_sort_strictly_older_first. }
  revert Hrev. unfold list_images, active_images.
  destruct (mongoConnected st) eqn:Hmc; intros Hrev.
  - rewrite (Hdb eq_refl). eexists _, _. split; [reflexivity|].
    rewrite Hmc. repeat split.
    + apply js_sort_perm.
    + apply js_sort_newest_first.
    + apply Permutation_refl.
    + exact Hrev.
  - eexists _, _. split; [reflexivity|]. simpl. rewrite Hmc. repeat split.
    + apply js_sort_perm.
    + apply js_sort_newest_first.
    + apply js_sort_perm.
    + exact Hrev.
Qed.

(** C5, an instance: two uploads into the empty fallback store at clocks
    1000 and 2000, then the listing: the newer record comes first. *)
Lemma C5_listAll_newest_first_witness :
  exists st',
    list_images
      (fst (upload_handler
              (fst (upload_handler Sample.staged (Sample.world_at 1000 1000 "a")
                      (JStr "Older") (Some "uploads/1000-a.png")))
              (Sample.world_at 2000 2000 "b") (JStr "Newer") (Some "uploads/2000-b.png")))
      (Sample.world_at 3000 3000 "c")
    = (st', mkResponse 200 (ImageList [Sample.newer_image; Sample.older_image])).
Proof.
  destruct (C5_listAll_newest_first
              (fst (upload_handler
                      (fst (upload_handler Sample.staged (Sample.world_at 1000 1000 "a")
                              (JStr "Older") (Some "uploads/1000-a.png")))
                      (Sample.world_at 2000 2000 "b") (JStr "Newer") (Some "uploads/2000-b.png")))
              (Sample.world_at 3000 3000 "c"))
    as (st' & l & Hlist & _ & _ & _ & Hrev).
  - simpl. discriminate.
  - exists st'. rewrite Hlist.
    rewrite (Hrev Sample.staged [Sample.older_image; Sample.newer_image]).
    + reflexivity.
    + apply (inserts_cons Sample.staged (Sample.world_at 1000 1000 "a") (JStr "Older")
               (Some "uploads/1000-a.png") Sample.older_image
               (fst (upload_handler Sample.staged (Sample.world_at 1000 1000 "a")
                       (JStr "Older") (Some "uploads/1000-a.png"))));
        [reflexivity|].
      apply (inserts_cons _ (Sample.world_at 2000 2000 "b") (JStr "Newer")
               (Some "uploads/2000-b.png") Sample.newer_image
               (fst (upload_handler
                       (fst (upload_handler Sample.staged (Sample.world_at 1000 1000 "a")
                               (JStr "Older") (Some "uploads/1000-a.png")))
                       (Sample.world_at 2000 2000 "b") (JStr "Newer")
                       (Some "uploads/2000-b.png"))));
        [reflexivity|].
      apply inserts_nil.
    + reflexivity.
    + repeat constructor.
Defined.

(** C5, the claim as stated fails: two records inserted in sequence with the
    same creation time are listed in their order of insertion, the most
    recently inserted one last. *)
Lemma C5_counterexample :
  option_map snd
    (run Sample.env_set Sample.fallback
       [Sample.upload_first; Sample.upload_second;
        Request ListImages (Sample.world_at 1500 1500 "c")])
  = Some [mkResponse 200 (ImageBody Sample.first_image);
          mkResponse 200 (ImageBody Sample.second_image);
          mkResponse 200 (ImageList [Sample.first_image; Sample.second_image])]
  /\ Sample.first_image <> Sample.second_image.
Proof.
  split; [vm_compute; reflexivity | discriminate].
Qed.

(** ** The reference instance satisfies the contract of signing *)

Lemma toy_dec_nat (n : nat) (rest : string) :
  Toy.dec_nat (Toy.enc_nat n rest) = Some (n, rest).
Proof.
  induction n as [|n IH]; simpl; [reflexivity | now rewrite IH].
Qed.

Lemma toy_dec_pos (p : positive) (rest : string) :
  Toy.dec_pos (Toy.enc_pos p rest) = Some (p, rest).
Proof.
  induction p as [q IH|q IH|]; simpl; try rewrite IH; reflexivity.
Qed.

Lemma toy_dec_Z (z : Z) (rest : string) :
  Toy.dec_Z (Toy.enc_Z z rest) = Some (z, rest).
Proof.
  destruct z; simpl; try rewrite toy_dec_pos; reflexivity.
Qed.

Lemma toy_take_drop (s rest : string) :
  Toy.take_drop (String.length s) (String.append s rest) = Some (s, rest).
Proof.
  induction s as [|c s IH]; simpl; [reflexivity | now rewrite IH].
Qed.

Lemma toy_dec_str (s rest : string) :
  Toy.dec_str (Toy.enc_str s rest) = Some (s, rest).
Proof.
  unfold Toy.dec_str, Toy.enc_str. rewrite toy_dec_nat. simpl. apply toy_take_drop.
Qed.

Lemma toy_dec_bool (b : bool) (rest : string) :
  Toy.dec_bool (Toy.enc_bool b rest) = Some (b, rest).
Proof.
  destruct b; reflexivity.
Qed.

Lemma toy_dec_jsval (v : jsval) (rest : string) :
  Toy.dec_jsval (Toy.enc_jsval v rest) = Some (v, rest).
Proof.
  destruct v as [| |b|n|s]; cbn [Toy.enc_jsval Toy.dec_jsval Ascii.eqb Bool.eqb Toy.bind].
  - reflexivity.
  - reflexivity.
  - now rewrite toy_dec_bool.
  - now rewrite toy_dec_Z.
  - now rewrite toy_dec_str.
Qed.

Lemma toy_dec_exp (x : option Z) (rest : string) :
  Toy.dec_exp (Toy.enc_exp x rest) = Some (x, rest).
Proof.
  destruct x as [z|]; cbn [Toy.enc_exp Toy.dec_exp Ascii.eqb Bool.eqb Toy.bind].
  - now rewrite toy_dec_Z.
  - reflexivity.
Qed.

Lemma toy_roundtrip (c : Claims.t) (k : string) :
  Toy.decode (Toy.encode c k) k = Some c.
Proof.
  unfold Toy.decode, Toy.encode.
  rewrite toy_dec_str. cbn [Toy.bind]. rewrite String.eqb_refl. cbn [negb].
  rewrite toy_dec_jsval. cbn [Toy.bind].
  rewrite toy_dec_str. cbn [Toy.bind].
  rewrite toy_dec_bool. cbn [Toy.bind].
  rewrite toy_dec_Z. cbn [Toy.bind].
  rewrite toy_dec_exp. cbn [Toy.bind].
  now destruct c.
Qed.

#[global] Instance toy_laws : CryptoLaws Toy.crypto := {|
  jws_roundtrip := toy_roundtrip
|}.

(** ** The auth gate *)

Section Gate.

Context {C : Crypto}.

Lemma authenticateToken_missing (e : env) (w : world) (authHeader : option string) :
  header_token authHeader = None \/ header_token authHeader = Some "" ->
  authenticateToken e w authHeader = inl (mkResponse 401 (Message "Access denied")).
Proof.
  unfold authenticateToken. intros [-> | ->]; reflexivity.
Qed.

Lemma authenticateToken_present (e : env) (w : world) (authHeader : option string)
    (token : string) :
  header_token authHeader = Some token -> token <> "" ->
  authenticateToken e w authHeader =
  match jwt_verify token (verify_secret e) (now w) with
  | inl _ => inl (mkResponse 403 (Message "Invalid token"))
  | inr user => inr user
  end.
Proof.
  unfold authenticateToken. intros -> Hne.
  destruct (String.eqb_spec token ""); [contradiction | reflexivity].
Qed.

(** A token whose signature does not verify, or whose expiry has passed, is
    an error of [jwt.verify]. *)
Lemma jwt_verify_invalid (token secret : string) (t : Z) :
  jws_decode token secret = None \/
  (exists c x, jws_decode token secret = Some c /\ Claims.exp c = Some x /\ x <= seconds t) ->
  exists err, jwt_verify token secret t = inl err.
Proof.
  unfold jwt_verify. intros [-> | (c & x & -> & -> & Hx)].
  - eauto.
  - destruct (Z.leb_spec x (seconds t)); [eauto | lia].
Qed.

Lemma admin_gate_passes (e : env) (w : world) (authHeader : option string) (user : Claims.t) :
  admin_gate e w authHeader = inr user <->
  exists token,
    header_token authHeader = Some token /\ token <> "" /\
    jwt_verify token (verify_secret e) (now w) = inr user /\
    Claims.isAdmin user = true.
Proof.
  unfold admin_gate, authenticateToken, isAdmin. split.
  - destruct (header_token authHeader) as [token|]; [|discriminate].
    destruct (String.eqb_spec token ""); [discriminate|].
    destruct (jwt_verify token (verify_secret e) (now w)) as [err|c] eqn:Hv; [discriminate|].
    destruct (Claims.isAdmin c) eqn:Hadm; [|discriminate].
    simpl. intros H. injection H as <-. exists token. auto.
  - intros (token & -> & Hne & -> & Hadm).
    destruct (String.eqb_spec token ""); [contradiction|].
    now rewrite Hadm.
Qed.

(** The scheme word of the header is not inspected: the token is the
    second word, whatever the first one is. *)
Lemma header_token_second_word :
  header_token (Some "Bearer abc.def.ghi") = Some "abc.def.ghi" /\
  header_token (Some "Basic abc.def.ghi") = Some "abc.def.ghi" /\
  header_token (Some "Bearer") = None /\
  header_token (Some "Bearer ") = Some "" /\
  header_token None = None.
Proof.
  repeat split.
Qed.

(** C2: the gate of the admin-only routes (upload, update title, delete).
    Without a bearer token in the authorization header the answer is 401
    "Access denied"; with a token whose signature does not verify or whose
    expiry has passed it is 403 "Invalid token"; with a token that verifies
    and carries a false admin flag it is 403 "Admin access required"; the
    three answers differ, each is the answer of the three routes and leaves
    the state as it was; and the handler is reached exactly by a verified
    token whose admin flag is true. *)
Theorem C2_admin_gate_outcomes (e : env) (w : world) (authHeader : option string) :
  (header_token authHeader = None \/ header_token authHeader = Some "" ->
   admin_gate e w authHeader = inl (mkResponse 401 (Message "Access denied"))) /\
  (forall token,
      header_token authHeader = Some token -> token <> "" ->
      jws_decode token (verify_secret e) = None \/
      (exists c x, jws_decode token (verify_secret e) = Some c /\
                   Claims.exp c = Some x /\ x <= seconds (now w)) ->
      admin_gate e w authHeader = inl (mkResponse 403 (Message "Invalid token"))) /\
  (forall token user,
      header_token authHeader = Some token -> token <> "" ->
      jwt_verify token (verify_secret e) (now w) = inr user ->
      Claims.isAdmin user = false ->
      admin_gate e w authHeader = inl (mkResponse 403 (Message "Admin access required"))) /\
  (forall user,
      admin_gate e w authHeader = inr user <->
      exists token,
        header_token authHeader = Some token /\ token <> "" /\
        jwt_verify token (verify_secret e) (now w) = inr user /\
        Claims.isAdmin user = true) /\
  (forall res st,
      admin_gate e w authHeader = inl res ->
      (forall m, handle e st (Upload authHeader m) w = (st, res)) /\
      (forall id title, handle e st (UpdateTitle authHeader id title) w = (st, res)) /\
      (forall id, handle e st (DeleteImage authHeader id) w = (st, res))) /\
  (mkResponse 401 (Message "Access denied") <> mkResponse 403 (Message "Invalid token") /\
   mkResponse 401 (Message "Access denied") <> mkResponse 403 (Message "Admin access required") /\
   mkResponse 403 (Message "Invalid token") <> mkResponse 403 (Message "Admin access required")).
Proof.
  split; [|split; [|split; [|split; [|split]]]].
  - intros H. unfold admin_gate. now rewrite authenticateToken_missing.
  - intros token Htok Hne Hbad. unfold admin_gate.
    rewrite (authenticateToken_present e w authHeader token Htok Hne).
    destruct (jwt_verify_invalid token (verify_secret e) (now w) Hbad) as [err ->].
    reflexivity.
  - intros token user Htok Hne Hver Hadm. unfold admin_gate.
    rewrite (authenticateToken_present e w authHeader token Htok Hne), Hver.
    unfold isAdmin. now rewrite Hadm.
  - apply admin_gate_passes.
  - intros res st H. repeat split; intros; simpl; now rewrite H.
  - repeat split; discriminate.
Qed.

End Gate.

(** C2, an instance: the token of the non-admin user, presented at clock
    2000 ms, verifies and is refused for its admin flag. *)
Lemma C2_admin_gate_outcomes_witness :
  admin_gate Sample.env_set (Sample.world_at 2000 2000 "a") (Sample.bearer Sample.user_token)
  = inl (mkResponse 403 (Message "Admin access required")).
Proof.
  refine (proj1 (proj2 (proj2
            (C2_admin_gate_outcomes Sample.env_set (Sample.world_at 2000 2000 "a")
               (Sample.bearer Sample.user_token))))
            Sample.user_token
            (Claims.mk (JNum 2) "user@gmail.com" false 1 (Some 86401)) _ _ _ _).
  - vm_compute. reflexivity.
  - discriminate.
  - vm_compute. reflexivity.
  - reflexivity.
Defined.

(** ** Login *)

Section Login.

Context {C : Crypto}.



(** X24: when the password of the body is a string, a login with an email
    that is not in the credential store and a login with a known email and a
    password that [bcrypt.compare] finds not to match the stored hash are
    answered alike, in status and in body: 401 "Invalid credentials".  The
    two attempts may be made in any two states of any two processes. *)
Theorem login_failures_alike
    (e1 e2 : env) (st1 st2 : state) (w1 w2 : world) (mc1 mc2 : bool)
    (email1 password1 email2 password2 : jsval) (u : User.t) :
  find_user st1 w1 email1 = Ok None ->
  find_user st2 w2 email2 = Ok (Some u) ->
  bcrypt_compare_js password2 (User.password u) = Ok false ->
  login e1 w1 st1 mc1 email1 password1 = login e2 w2 st2 mc2 email2 password2 /\
  status (login e1 w1 st1 mc1 email1 password1) = 401 /\
  json (login e1 w1 st1 mc1 email1 password1) = Message "Invalid credentials".
Proof.
  intros Hnone Hsome Hcmp. unfold login.
  rewrite Hnone, Hsome, Hcmp. auto.
Qed.

(** When the email is known and the password of the body is not a string
    (or is missing), [bcrypt.compare] rejects and the answer is 500 "Server
    error", whereas an unknown email is answered 401 whatever the password
    is. *)
Lemma login_password_not_string (e : env) (st : state) (w : world) (mc : bool)
    (email password : jsval) (u : User.t) :
  find_user st w email = Ok (Some u) ->
  (forall s, password <> JStr s) ->
  login e w st mc email password = mkResponse 500 (Message "Server error").
Proof.
  intros Hfind Hpw. unfold login. rewrite Hfind.
  destruct password as [| |b|n|s]; try reflexivity.
  now destruct (Hpw s).
Qed.

Lemma login_unknown_email (e : env) (st : state) (w : world) (mc : bool)
    (email password : jsval) :
  find_user st w email = Ok None ->
  login e w st mc email password = mkResponse 401 (Message "Invalid credentials").
Proof.
  intros Hfind. unfold login. now rewrite Hfind.
Qed.

(** With a signing key in place, [jwt.verify] under the key of the gate
    returns what [jwt.sign] stamped, until the expiry. *)
Lemma jwt_sign_verify {L : CryptoLaws C} (e : env) (k : string)
    (userId : jsval) (email : string) (adm : bool) (t : Z) :
  JWT_SECRET e = Some k -> k <> "" ->
  exists token,
    jwt_sign userId email adm (sign_secret e) expiresIn_24h t = Ok token /\
    (forall t', seconds t' < seconds t + 86400 ->
        jwt_verify token (verify_secret e) t' =
        inr (Claims.mk userId email adm (seconds t) (Some (seconds t + 86400)))) /\
    (forall t', seconds t + 86400 <= seconds t' ->
        jwt_verify token (verify_secret e) t' = inl TokenExpiredError).
Proof.
  intros Hk Hne. unfold jwt_sign, jwt_verify, sign_secret, verify_secret, expiresIn_24h.
  rewrite Hk. destruct (String.eqb_spec k ""); [contradiction|].
  eexists. split; [reflexivity|].
  split; intros t' Ht; rewrite jws_roundtrip; simpl;
    destruct (Z.leb_spec (seconds t + 86400) (seconds t')); (reflexivity || lia).
Qed.


(** Without a usable signing key [jwt.sign] throws. *)
Lemma jwt_sign_unset (e : env) (userId : jsval) (email : string) (adm : bool) (ttl t : Z) :
  JWT_SECRET e = None \/ JWT_SECRET e = Some "" ->
  jwt_sign userId email adm (sign_secret e) ttl t = Throw "secretOrPrivateKey must have a value".
Proof.
  unfold jwt_sign, sign_secret. intros [-> | ->]; reflexivity.
Qed.

(** C10 (as amended): with JWT_SECRET unset (or empty) the gate verifies
    with the hard-coded 'your_jwt_secret' while the login signs with the
    undefined value, so signing throws: every login attempt with valid
    credentials is answered 500 "Server error", and no login attempt is
    answered with a token; the attempts that fail the credential check, by
    an unknown email or by a wrong password, are answered 401 as with a
    secret in place. *)
Theorem C10_unset_secret_login (e : env) (st : state) (w : world) (mc : bool)
    (email password : jsval) :
  JWT_SECRET e = None \/ JWT_SECRET e = Some "" ->
  verify_secret e = "your_jwt_secret" /\
  sign_secret e <> Some (verify_secret e) /\
  (forall u,
      find_user st w email = Ok (Some u) ->
      bcrypt_compare_js password (User.password u) = Ok true ->
      login e w st mc email password = mkResponse 500 (Message "Server error")) /\
  (login e w st mc email password = mkResponse 500 (Message "Server error") \/
   login e w st mc email password = mkResponse 401 (Message "Invalid credentials")) /\
  (forall token adm, json (login e w st mc email password) <> TokenBody token adm) /\
  (find_user st w email = Ok None ->
   login e w st mc email password = mkResponse 401 (Message "Invalid credentials")) /\
  (forall u,
      find_user st w email = Ok (Some u) ->
      bcrypt_compare_js password (User.password u) = Ok false ->
      login e w st mc email password = mkResponse 401 (Message "Invalid credentials")).
Proof.
  intros Hunset.
  assert (Hlogin : login e w st mc email password = mkResponse 500 (Message "Server error") \/
                   login e w st mc email password
                   = mkResponse 401 (Message "Invalid credentials")).
  { unfold login.
    destruct (find_user st w email) as [[u|]|msg]; auto.
    destruct (bcrypt_compare_js password (User.password u)) as [[|]|msg]; auto.
    rewrite jwt_sign_unset by exact Hunset. auto. }
  split; [|split; [|split; [|split; [|split; [|split]]]]].
  - unfold verify_secret. destruct Hunset as [-> | ->]; reflexivity.
  - unfold sign_secret, verify_secret. destruct Hunset as [-> | ->]; discriminate.
  - intros u Hfind Hcmp. unfold login.
    rewrite Hfind, Hcmp, jwt_sign_unset by exact Hunset. reflexivity.
  - exact Hlogin.
  - intros token adm. destruct Hlogin as [-> | ->]; discriminate.
  - intros Hnone. unfold login. now rewrite Hnone.
  - intros u Hfind Hcmp. unfold login. now rewrite Hfind, Hcmp.
Qed.

End Login.

(** In the fallback store, an unknown email against the admin's email with
    a wrong password. *)
Lemma login_failures_alike_witness :
  login Sample.env_set (Sample.world_at 1000 1000 "a") Sample.fallback false
        (JStr "nobody@gmail.com") (JStr "admin123")
  = login Sample.env_set (Sample.world_at 1000 1000 "a") Sample.fallback false
          (JStr "admin@gmail.com") (JStr "letmein").
Proof.
  refine (proj1 (login_failures_alike
                   Sample.env_set Sample.env_set Sample.fallback Sample.fallback
                   (Sample.world_at 1000 1000 "a") (Sample.world_at 1000 1000 "a") false false
                   (JStr "nobody@gmail.com") (JStr "admin123")
                   (JStr "admin@gmail.com") (JStr "letmein") Sample.admin _ _ _));
    vm_compute; reflexivity.
Defined.

(** C3, the failing pair: two login attempts whose body has a number for
    the password (or no password), which matches no stored hash.  With an
    email that is not in the store the answer is 401 "Invalid credentials".
    With the email of the admin [bcrypt.compare] rejects its argument and
    the answer is 500 "Server error": the response tells the observer that
    the email is known. *)
Lemma C3_password_not_a_string :
  handle Sample.env_set Sample.fallback
         (Login (JStr "nobody@gmail.com") (JNum 123)) (Sample.world_at 1000 1000 "a")
  = (Sample.fallback, mkResponse 401 (Message "Invalid credentials")) /\
  handle Sample.env_set Sample.fallback
         (Login (JStr "admin@gmail.com") (JNum 123)) (Sample.world_at 1000 1000 "a")
  = (Sample.fallback, mkResponse 500 (Message "Server error")) /\
  handle Sample.env_set Sample.fallback
         (Login (JStr "nobody@gmail.com") JUndefined) (Sample.world_at 1000 1000 "a")
  = (Sample.fallback, mkResponse 401 (Message "Invalid credentials")) /\
  handle Sample.env_set Sample.fallback
         (Login (JStr "admin@gmail.com") JUndefined) (Sample.world_at 1000 1000 "a")
  = (Sample.fallback, mkResponse 500 (Message "Server error")) /\
  status (mkResponse 401 (Message "Invalid credentials"))
  <> status (mkResponse 500 (Message "Server error")) /\
  json (mkResponse 401 (Message "Invalid credentials"))
  <> json (mkResponse 500 (Message "Server error")).
Proof.
  repeat split; try reflexivity; discriminate.
Qed.


(** C10, an instance: the seeded admin, right password, no secret. *)
Lemma C10_unset_secret_login_witness :
  login Sample.env_unset (Sample.world_at 1000 1000 "a") Sample.fallback false
        (JStr "admin@gmail.com") (JStr "admin123")
  = mkResponse 500 (Message "Server error").
Proof.
  refine (proj1 (proj2 (proj2
            (C10_unset_secret_login Sample.env_unset Sample.fallback
               (Sample.world_at 1000 1000 "a") false
               (JStr "admin@gmail.com") (JStr "admin123") (or_introl eq_refl))))
            Sample.admin _ _); vm_compute; reflexivity.
Defined.

(** C10, the claim as stated fails: with JWT_SECRET unset, a login attempt
    with an unknown email is answered 401, not 500. *)
Lemma C10_counterexample :
  JWT_SECRET Sample.env_unset = None /\
  handle Sample.env_unset Sample.fallback
         (Login (JStr "nobody@gmail.com") (JStr "admin123")) (Sample.world_at 1000 1000 "a")
  = (Sample.fallback, mkResponse 401 (Message "Invalid credentials")) /\
  mkResponse 401 (Message "Invalid credentials") <> mkResponse 500 (Message "Server error").
Proof.
  split; [reflexivity|].
  split; [reflexivity | discriminate].
Qed.

(** ** Upload: a record needs the remote upload and the insert *)

Section Upload.

Context {C : Crypto}.

Lemma multer_store_images (file : option string) (st : state) :
  images (multer_store file st) = images st /\
  db_images (multer_store file st) = db_images st /\
  mongoConnected (multer_store file st) = mongoConnected st.
Proof.
  unfold multer_store. destruct file as [path|]; [|auto].
  destruct (existsb (String.eqb path) (uploads st)); auto.
Qed.

(** Whatever the handler answers, either both stores are as before, or the
    answer is 200 with a record made from the result of a remote upload
    that succeeded, and the record is the one added to the active store. *)
Lemma upload_handler_cases (st st' : state) (w : world) (title : jsval)
    (file : option string) (res : response) :
  upload_handler st w title file = (st', res) ->
  (images st' = images st /\ db_images st' = db_images st /\ status res <> 200) \/
  (exists i,
      res = mkResponse 200 (ImageBody i) /\
      cloud_upload w = Ok (Image.url i, Image.cloudinaryId i) /\
      active_images st' = active_images st ++ [i] /\
      inactive_images st' = inactive_images st).
Proof.
  unfold upload_handler, active_images, inactive_images, save_image.
  destruct file as [path|].
  2:{ intros H. injection H as <- <-. left. simpl. repeat split. discriminate. }
  destruct (cloud_upload w) as [[secure_url public_id]|msg].
  2:{ intros H. injection H as <- <-. left. simpl. repeat split. discriminate. }
  destruct (unlinkSync path (uploads st)) as [files|msg].
  2:{ intros H. injection H as <- <-. left. simpl. repeat split. discriminate. }
  destruct (mongoConnected st) eqn:Hmc.
  - destruct (negb (db_ok w)).
    { intros H. injection H as <- <-. left. simpl. repeat split. discriminate. }
    match goal with |- context [if ?b then Ok _ else _] => destruct b end.
    + intros H. injection H as <- <-. right. eexists. simpl. rewrite Hmc. auto.
    + intros H. injection H as <- <-. left. simpl. repeat split. discriminate.
  - intros H. injection H as <- <-. right. eexists. simpl. rewrite Hmc. auto.
Qed.

(** C7: an Image record is created only when both the remote upload and
    the store insert succeed.  If the remote upload throws, the handler
    answers 500 and the whole state, the temporary file included, is as it
    was; if the insert into the collection fails after a successful remote
    upload, the answer is 500 and no store holds a new record; and on the
    route, a store changes only by the record of a 200 answer, built from
    the result of a remote upload that succeeded. *)
Theorem C7_record_needs_upload_and_insert (e : env) (st : state) (w : world) (title : jsval) :
  (forall path msg,
      cloud_upload w = Throw msg ->
      upload_handler st w title (Some path)
      = (st, mkResponse 500 (MessageError "Error uploading image" msg))) /\
  (forall path secure_url public_id msg,
      cloud_upload w = Ok (secure_url, public_id) ->
      mongoConnected st = true ->
      save_image w (Image.mk (new_oid w) (js_or title (JStr "Untitled")) secure_url public_id (now w))
                 (db_images st) = Throw msg ->
      status (snd (upload_handler st w title (Some path))) = 500 /\
      db_images (fst (upload_handler st w title (Some path))) = db_images st /\
      images (fst (upload_handler st w title (Some path))) = images st) /\
  (forall authHeader m st' res,
      handle e st (Upload authHeader m) w = (st', res) ->
      (images st' = images st /\ db_images st' = db_images st /\ status res <> 200) \/
      (exists i,
          res = mkResponse 200 (ImageBody i) /\
          cloud_upload w = Ok (Image.url i, Image.cloudinaryId i) /\
          active_images st' = active_images st ++ [i] /\
          inactive_images st' = inactive_images st)).
Proof.
  split; [|split].
  - intros path msg Hup. unfold upload_handler. now rewrite Hup.
  - intros path secure_url public_id msg Hup Hmc Hsave.
    unfold upload_handler. rewrite Hup.
    destruct (unlinkSync path (uploads st)) as [files|msg']; [|auto].
    rewrite Hmc, Hsave. auto.
  - intros authHeader m st' res. simpl.
    destruct (admin_gate e w authHeader) as [rej|user] eqn:Hgate.
    + intros H. injection H as <- <-. left. repeat split.
      unfold admin_gate, authenticateToken, isAdmin in Hgate.
      destruct (header_token authHeader) as [token|]; [|injection Hgate as <-; discriminate].
      destruct (String.eqb token ""); [injection Hgate as <-; discriminate|].
      destruct (jwt_verify token (verify_secret e) (now w)) as [err|c];
        [injection Hgate as <-; discriminate|].
      destruct (negb (Claims.isAdmin c)); [injection Hgate as <-; discriminate | discriminate].
    + destruct m as [msg|title' file].
      * intros H. injection H as <- <-. left. simpl. repeat split. discriminate.
      * intros H. apply upload_handler_cases in H.
        destruct (multer_store_images file st) as (Hi & Hd & Hm).
        unfold active_images, inactive_images in *. rewrite Hi, Hd, Hm in H. exact H.
Qed.

End Upload.

(** C7, an instance: the media host refuses the upload; the fallback state,
    with the temporary file on disk, is unchanged. *)
Lemma C7_record_needs_upload_and_insert_witness :
  upload_handler
    (set_uploads ["uploads/1-a.png"] Sample.fallback)
    (mkWorld 1000 1000 true "" "" (Throw "Request Timeout") (Ok tt))
    (JStr "Sunset") (Some "uploads/1-a.png")
  = (set_uploads ["uploads/1-a.png"] Sample.fallback,
     mkResponse 500 (MessageError "Error uploading image" "Request Timeout")).
Proof.
  exact (proj1 (C7_record_needs_upload_and_insert Sample.env_set
                  (set_uploads ["uploads/1-a.png"] Sample.fallback)
                  (mkWorld 1000 1000 true "" "" (Throw "Request Timeout") (Ok tt))
                  (JStr "Sunset"))
               "uploads/1-a.png" "Request Timeout" eq_refl).
Defined.

(** ** Ids, insert then delete, titles *)

Lemma findIndex_fresh {A : Type} (p : A -> bool) (l : list A) (y : A) :
  Forall (fun x => p x = false) l -> p y = true ->
  findIndex p (l ++ [y]) = Some (List.length l).
Proof.
  intros Hl Hy. induction Hl as [|x l Hx _ IH]; simpl.
  - now rewrite Hy.
  - now rewrite Hx, IH.
Qed.

Lemma nth_error_last {A : Type} (l : list A) (y : A) :
  nth_error (l ++ [y]) (List.length l) = Some y.
Proof.
  induction l as [|x l IH]; simpl; auto.
Qed.

Lemma splice1_last {A : Type} (l : list A) (y : A) :
  splice1 (List.length l) (l ++ [y]) = l.
Proof.
  induction l as [|x l IH]; simpl; [reflexivity | now rewrite IH].
Qed.

Lemma findById_found (w : world) (id : string) (docs : list Image.t) (i : nat) :
  findIndex (has_id id) docs = Some i -> db_ok w = true ->
  findById w id docs = Ok (Some i).
Proof.
  intros Hfind Hdb. unfold findById. now rewrite Hfind, Hdb.
Qed.

(** The delete handler on an id that the store in use holds, the database
    answering: the media host decides between 500 with the state as it was
    and 200 with the first record of that id removed. *)
Lemma delete_handler_found (st : state) (w : world) (id : string) (i : nat) (x : Image.t) :
  findIndex (has_id id) (active_images st) = Some i ->
  nth_error (active_images st) i = Some x ->
  (mongoConnected st = true -> db_ok w = true) ->
  delete_handler st w id =
  match destroy_remote w x with
  | Throw msg => (st, mkResponse 500 (MessageError "Error deleting image" msg))
  | Ok _ =>
      (if mongoConnected st then set_db_images (splice1 i (db_images st)) st
       else set_images (splice1 i (images st)) st,
       mkResponse 200 (Message "Image deleted successfully"))
  end.
Proof.
  intros Hfind Hnth Hdb.
  unfold delete_handler, delete_lookup, delete_finish, active_images in *.
  destruct (mongoConnected st).
  - rewrite (findById_found w id _ i Hfind (Hdb eq_refl)), Hnth.
    destruct (destroy_remote w x) as [[]|msg]; [|reflexivity].
    now rewrite (findById_found w id _ i Hfind (Hdb eq_refl)).
  - rewrite Hfind, Hnth. now destruct (destroy_remote w x) as [[]|msg].
Qed.

Lemma has_id_fresh (i : Image.t) (l : list Image.t) :
  ~ In (Image._id i) (ids l) -> Forall (fun x => has_id (Image._id i) x = false) l.
Proof.
  intros Hfresh. apply Forall_forall. intros x Hx. unfold has_id.
  destruct (String.eqb_spec (Image._id x) (Image._id i)) as [Heq|]; [|reflexivity].
  exfalso. apply Hfresh. rewrite <- Heq. now apply in_map.
Qed.

(** When the id given to a new record is not yet in the store, deleting by
    that id right after the upload gives the store back as it was. *)
Lemma insert_then_delete_fresh (st st1 : state) (w w' : world) (title : jsval)
    (file : option string) (i : Image.t) :
  upload_handler st w title file = (st1, mkResponse 200 (ImageBody i)) ->
  ~ In (Image._id i) (ids (active_images st)) ->
  destroy_remote w' i = Ok tt ->
  (mongoConnected st = true -> db_ok w' = true) ->
  snd (delete_handler st1 w' (Image._id i))
  = mkResponse 200 (Message "Image deleted successfully") /\
  active_images (fst (delete_handler st1 w' (Image._id i))) = active_images st.
Proof.
  intros Hup Hfresh Hdestroy Hdb.
  apply upload_handler_created in Hup as (Ha & _ & Hm & _).
  rewrite (delete_handler_found st1 w' (Image._id i) (List.length (active_images st)) i).
  - rewrite Hdestroy. split; [reflexivity|].
    unfold active_images in *. rewrite Hm in *. simpl.
    destruct (mongoConnected st) eqn:Hmc; simpl; rewrite Hm, Ha, splice1_last; reflexivity.
  - rewrite Ha. apply findIndex_fresh; [now apply has_id_fresh|].
    unfold has_id. apply String.eqb_refl.
  - rewrite Ha. apply nth_error_last.
  - now rewrite Hm.
Qed.

(** C8, the failing run: two uploads served by the fallback store within
    the same millisecond create two different records with the same id. *)
Lemma C8_same_millisecond_same_id :
  option_map (fun x => (images (fst (fst x)), snd x))
    (run Sample.env_set Sample.fallback [Sample.upload_twin; Sample.upload_second])
  = Some ([Sample.twin_image; Sample.second_image],
          [mkResponse 200 (ImageBody Sample.twin_image);
           mkResponse 200 (ImageBody Sample.second_image)])
  /\ Image._id Sample.twin_image = Image._id Sample.second_image
  /\ Sample.twin_image <> Sample.second_image.
Proof.
  split; [vm_compute; reflexivity|].
  split; [reflexivity | discriminate].
Qed.

(** C6, the failing run: the store holds a record created in the same
    millisecond as the upload; deleting by the id the upload answered
    removes the older record, and the listing still shows that id. *)
Lemma C6_insert_delete_id_remains :
  option_map snd
    (run Sample.env_set (set_images [Sample.twin_image] Sample.fallback)
       [Sample.upload_second;
        Request (DeleteImage (Sample.bearer Sample.admin_token) "1000")
                (Sample.world_at 1500 1500 "c");
        Request ListImages (Sample.world_at 1600 1600 "c")])
  = Some [mkResponse 200 (ImageBody Sample.second_image);
          mkResponse 200 (Message "Image deleted successfully");
          mkResponse 200 (ImageList [Sample.second_image])]
  /\ Image._id Sample.second_image = "1000"
  /\ In "1000" (ids [Sample.second_image]).
Proof.
  split; [vm_compute; reflexivity|].
  split; [reflexivity | simpl; auto].
Qed.

(** C9, the failing runs: a title update whose body has no title leaves the
    record of the fallback store without a title, and an update to the
    empty string leaves a document of the collection with an empty title. *)
Lemma C9_update_leaves_no_title :
  option_map (fun x => (images (fst (fst x)), snd x))
    (run Sample.env_set Sample.fallback
       [Sample.upload_first;
        Request (UpdateTitle (Sample.bearer Sample.admin_token) "999" JUndefined)
                (Sample.world_at 1500 1500 "c")])
  = Some ([Image.set_title JUndefined Sample.first_image],
          [mkResponse 200 (ImageBody Sample.first_image);
           mkResponse 200 (ImageBody (Image.set_title JUndefined Sample.first_image))])
  /\ titles_ok [Image.set_title JUndefined Sample.first_image] = false
  /\ option_map (fun x => (db_images (fst (fst x)), snd x))
       (run Sample.env_set Sample.connected
          [Request (UpdateTitle (Sample.bearer Sample.admin_token)
                                "65f0c0ffee65f0c0ffee0000" (JStr ""))
                   (Sample.world_at 1500 1500 "c")])
     = Some ([Image.set_title (JStr "") Sample.old_doc],
             [mkResponse 200 (ImageBody (Image.set_title (JStr "") Sample.old_doc))])
  /\ titles_ok [Image.set_title (JStr "") Sample.old_doc] = false.
Proof.
  split; [vm_compute; reflexivity|].
  split; [reflexivity|].
  split; [vm_compute; reflexivity | reflexivity].
Qed.

(** An upload always stores a non-empty string as the title. *)
Lemma upload_title_nonempty (st st' : state) (w : world) (title : jsval)
    (file : option string) (i : Image.t) :
  nonempty_string title = true \/ title = JUndefined \/ title = JStr "" ->
  upload_handler st w title file = (st', mkResponse 200 (ImageBody i)) ->
  nonempty_string (Image.title i) = true /\
  (title = JUndefined \/ title = JStr "" -> Image.title i = JStr "Untitled").
Proof.
  intros Ht Hup. apply upload_handler_created in Hup as (_ & _ & _ & _ & -> & _).
  destruct Ht as [Ht | [-> | ->]].
  - destruct title as [| |b|n|s]; try discriminate.
    unfold js_or. simpl in *. rewrite Ht. split; [exact Ht|].
    intros [H | H]; [discriminate|]. injection H as ->. discriminate.
  - split; reflexivity.
  - split; reflexivity.
Qed.

(** ** The storage mode over the life of the process *)

Section Mode.

Context {C : Crypto}.

(** Splits on the value a handler branches on. *)
Ltac branch :=
  match goal with
  | |- context [match ?x with _ => _ end] => destruct x eqn:?
  end.

Lemma delete_finish_frame (st : state) (w : world) (d : pending_delete) (r : result unit) :
  same_frame st (fst (delete_finish st w d r)).
Proof.
  unfold delete_finish, same_frame. repeat branch; cbn; auto.
Qed.

Lemma handle_frame (e : env) (st : state) (r : request) (w : world) :
  same_frame st (fst (handle e st r w)).
Proof.
  destruct r as [email password| |h m|h id title|h id]; cbn [handle].
  - unfold same_frame. cbn. auto.
  - unfold list_images, same_frame. repeat branch; cbn; auto.
  - unfold upload_handler, multer_store, same_frame. repeat branch; cbn; auto.
  - unfold update_handler, same_frame. repeat branch; cbn; auto.
  - destruct (admin_gate e w h); [unfold same_frame; cbn; auto|].
    unfold delete_handler. destruct (delete_lookup st w id) as [res|[image d]];
      [unfold same_frame; cbn; auto|].
    apply delete_finish_frame.
Qed.

Lemma handle_flags (e : env) (st : state) (r : request) (w : world) :
  mongoConnected (fst (handle e st r w)) = mongoConnected st /\
  connectPending (fst (handle e st r w)) = connectPending st.
Proof.
  destruct (handle_frame e st r w) as (H1 & H2 & _). auto.
Qed.

Lemma initializeUsers_flags (w : world) (hash : result string) (c : seed_call) (st : state) :
  mongoConnected (fst (initializeUsers w hash c st)) = mongoConnected st /\
  connectPending (fst (initializeUsers w hash c st)) = connectPending st /\
  users (fst (initializeUsers w hash c st)) = users st.
Proof.
  unfold initializeUsers. repeat branch; simpl; auto.
Qed.

Lemma initializeInMemoryUsers_flags (h1 h2 : result string) (st : state) :
  mongoConnected (initializeInMemoryUsers h1 h2 st) = mongoConnected st /\
  connectPending (initializeInMemoryUsers h1 h2 st) = connectPending st.
Proof.
  unfold initializeInMemoryUsers. repeat branch; simpl; auto.
Qed.

(** A DELETE request served up to its await, and a call resumed: neither
    writes the flag, the state of the promise or the fallback users. *)
Lemma step_partial_flags (e : env) (st st' : state) (ev : event) (res : option response) :
  match ev with DeleteReceived _ _ _ | Resume _ _ _ => True | _ => False end ->
  step e st ev = Some (st', res) ->
  mongoConnected st' = mongoConnected st /\
  connectPending st' = connectPending st /\
  users st' = users st.
Proof.
  destruct ev as [|h1 h2|r w|h id w|k w hash]; try contradiction; intros _; cbn [step].
  - destruct (admin_gate e w h); [intros H; injection H as <- <-; auto|].
    destruct (delete_lookup st w id) as [r|[image d]]; [intros H; injection H as <- <-; auto|].
    destruct (required (Image.cloudinaryId image)); [intros H; injection H as <- <-; auto|].
    destruct (delete_finish st w d (Ok tt)) as [st1 res1] eqn:Hf.
    intros H. injection H as <- <-.
    destruct (delete_finish_frame st w d (Ok tt)) as (H1 & H2 & H3 & _).
    rewrite Hf in H1, H2, H3. auto.
  - destruct (nth_error (inflight st) k) as [[c|d]|]; [| |discriminate].
    + destruct (initializeUsers w hash c st) as [st1 [c'|]] eqn:Hi;
        intros H; injection H as <- <-;
        destruct (initializeUsers_flags w hash c st) as (H1 & H2 & H3);
        rewrite Hi in H1, H2, H3; auto.
    + destruct (delete_finish (set_inflight (splice1 k (inflight st)) st) w d (cloud_destroy w))
        as [st1 res1] eqn:Hf.
      intros H. injection H as <- <-.
      destruct (delete_finish_frame (set_inflight (splice1 k (inflight st)) st) w d
                  (cloud_destroy w)) as (H1 & H2 & H3 & _).
      rewrite Hf in H1, H2, H3. auto.
Qed.

(** One event: the flag is never cleared, and it moves only while the
    promise of the connection is pending. *)
Lemma step_flags (e : env) (st st' : state) (ev : event) (res : option response) :
  step e st ev = Some (st', res) ->
  (mongoConnected st = true -> mongoConnected st' = true) /\
  (connectPending st = false ->
   connectPending st' = false /\ mongoConnected st' = mongoConnected st).
Proof.
  destruct ev as [|h1 h2|r w|h id w|k w hash].
  - simpl. destruct (connectPending st) eqn:Hp; [|discriminate].
    intros H. injection H as <- <-. simpl. split; [auto | discriminate].
  - simpl. destruct (connectPending st) eqn:Hp; [|discriminate].
    intros H. injection H as <- <-.
    destruct (initializeInMemoryUsers_flags h1 h2 (set_connectPending false st)) as [-> _].
    simpl. split; [auto | discriminate].
  - simpl. destruct (handle e st r w) as [st1 res1] eqn:Hh.
    intros H. injection H as <- <-.
    destruct (handle_flags e st r w) as [Hm Hp]. rewrite Hh in Hm, Hp. simpl in Hm, Hp.
    rewrite Hm, Hp. auto.
  - intros H. apply step_partial_flags in H as (-> & -> & _); [auto | exact I].
  - intros H. apply step_partial_flags in H as (-> & -> & _); [auto | exact I].
Qed.

Lemma run_cons (e : env) (st st'' : state) (ev : event) (evs : list event)
    (log : list backend) (out : list response) :
  run e st (ev :: evs) = Some (st'', log, out) ->
  exists st' res log' out',
    step e st ev = Some (st', res) /\
    run e st' evs = Some (st'', log', out') /\
    log = if serves ev then backend_of st :: log' else log'.
Proof.
  simpl. destruct (step e st ev) as [[st' res]|]; [|discriminate].
  destruct (run e st' evs) as [[[st2 log'] out']|] eqn:Hrun; [|discriminate].
  intros H. injection H as <- <- <-.
  exists st', res, log', out'. auto.
Qed.

(** Once persistent, persistent for good. *)
Lemma run_persistent (e : env) (evs : list event) :
  forall st st' log out,
    run e st evs = Some (st', log, out) ->
    mongoConnected st = true ->
    mongoConnected st' = true /\ Forall (eq Persistent) log.
Proof.
  induction evs as [|ev evs IH]; intros st st' log out Hrun Hmc.
  - simpl in Hrun. injection Hrun as <- <- <-. auto.
  - apply run_cons in Hrun as (st1 & res & log' & out' & Hstep & Hrun & ->).
    apply step_flags in Hstep as [Hkeep _].
    destruct (IH _ _ _ _ Hrun (Hkeep Hmc)) as [Hmc' Hlog].
    split; [exact Hmc'|].
    destruct (serves ev); [|exact Hlog].
    constructor; [|exact Hlog]. unfold backend_of. now rewrite Hmc.
Qed.

(** Once the promise has settled, the mode is fixed. *)
Lemma run_settled (e : env) (evs : list event) :
  forall st st' log out,
    run e st evs = Some (st', log, out) ->
    connectPending st = false ->
    mongoConnected st' = mongoConnected st /\ connectPending st' = false /\
    Forall (eq (backend_of st)) log.
Proof.
  induction evs as [|ev evs IH]; intros st st' log out Hrun Hp.
  - simpl in Hrun. injection Hrun as <- <- <-. auto.
  - apply run_cons in Hrun as (st1 & res & log' & out' & Hstep & Hrun & ->).
    apply step_flags in Hstep as [_ Hfix]. destruct (Hfix Hp) as [Hp1 Hm1].
    destruct (IH _ _ _ _ Hrun Hp1) as (Hm' & Hp' & Hlog).
    assert (Hb : backend_of st1 = backend_of st) by (unfold backend_of; now rewrite Hm1).
    rewrite Hb in Hlog. rewrite Hm', Hm1.
    repeat split; auto.
    destruct (serves ev); auto.
Qed.

(** The requests served from the fallback store come first. *)
Lemma run_log_shape (e : env) (evs : list event) :
  forall st st' log out,
    run e st evs = Some (st', log, out) ->
    exists n m, log = repeat InMemory n ++ repeat Persistent m.
Proof.
  induction evs as [|ev evs IH]; intros st st' log out Hrun.
  - simpl in Hrun. injection Hrun as <- <- <-. exists O, O. reflexivity.
  - pose proof Hrun as Hrun0.
    apply run_cons in Hrun as (st1 & res & log' & out' & Hstep & Hrun & Hlog).
    destruct (IH _ _ _ _ Hrun) as (n & m & Hlog').
    destruct (serves ev); [|exists n, m; now rewrite Hlog].
    subst log.
    destruct (mongoConnected st) eqn:Hmc.
    + destruct (run_persistent e _ _ _ _ _ Hrun0 Hmc) as [_ Hall].
      exists O, (List.length (backend_of st :: log')). simpl.
      unfold backend_of in *. rewrite Hmc in *.
      f_equal. inversion Hall as [|? ? _ Hall']; subst.
      clear - Hall'. induction Hall' as [|b l <- _ IHl]; simpl; [reflexivity | now rewrite <- IHl].
    + exists (S n), m. unfold backend_of. rewrite Hmc, Hlog'. reflexivity.
Qed.

(** A request is served from one store: the answer and the next state of
    the store in use do not depend on the other store, and the other store
    is left as it was. *)
Lemma delete_handler_one_backend (st1 st2 : state) (w : world) (id : string) :
  same_active st1 st2 ->
  snd (delete_handler st1 w id) = snd (delete_handler st2 w id) /\
  same_active (fst (delete_handler st1 w id)) (fst (delete_handler st2 w id)) /\
  inactive_images (fst (delete_handler st1 w id)) = inactive_images st1 /\
  inactive_users (fst (delete_handler st1 w id)) = inactive_users st1.
Proof.
  destruct st1 as [mc1 p1 u1 i1 du1 di1 up1 fl1], st2 as [mc2 p2 u2 i2 du2 di2 up2 fl2].
  unfold same_active. simpl. intros (<- & <- & <- & <- & H).
  unfold delete_handler, delete_lookup, inactive_images, inactive_users. cbn.
  destruct mc1; destruct H as [<- <-].
  - destruct (findById w id di1) as [[i|]|msg] eqn:Hf; cbn; [|tauto|tauto].
    destruct (nth_error di1 i) as [image|]; cbn; [|tauto].
    unfold delete_finish. destruct (destroy_remote w image); cbn; [|tauto].
    rewrite Hf. cbn. tauto.
  - destruct (findIndex (has_id id) i1) as [i|]; cbn; [|tauto].
    destruct (nth_error i1 i) as [image|]; cbn; [|tauto].
    unfold delete_finish. destruct (destroy_remote w image); cbn; tauto.
Qed.

Lemma handle_one_backend (e : env) (st1 st2 : state) (r : request) (w : world) :
  same_active st1 st2 ->
  snd (handle e st1 r w) = snd (handle e st2 r w) /\
  same_active (fst (handle e st1 r w)) (fst (handle e st2 r w)) /\
  inactive_images (fst (handle e st1 r w)) = inactive_images st1 /\
  inactive_users (fst (handle e st1 r w)) = inactive_users st1.
Proof.
  intros Hsame.
  destruct r as [email password| |h m|h id title|h id].
  5:{ cbn [handle]. destruct (admin_gate e w h); [cbn; auto|].
      now apply delete_handler_one_backend. }
  all: revert Hsame;
    destruct st1 as [mc1 p1 u1 i1 du1 di1 up1 fl1], st2 as [mc2 p2 u2 i2 du2 di2 up2 fl2];
    unfold same_active; simpl; intros (<- & <- & <- & <- & H);
    destruct mc1; destruct H as [<- <-];
    unfold handle, login, find_user, list_images, upload_handler, update_handler,
      findById, multer_store, inactive_images, inactive_users, same_active;
    cbn; repeat (branch; cbn in *; try discriminate); repeat split; congruence.
Qed.

(** The emails of the fallback users stay unique: the array is only ever
    replaced by the two seeded accounts. *)
Lemma step_users_unique (e : env) (st st' : state) (ev : event) (res : option response) :
  step e st ev = Some (st', res) ->
  NoDup (map User.email (users st)) -> NoDup (map User.email (users st')).
Proof.
  destruct ev as [|h1 h2|r w|h id w|k w hash].
  - simpl. destruct (connectPending st); [|discriminate].
    intros H. injection H as <- <-. auto.
  - simpl. destruct (connectPending st); [|discriminate].
    intros H. injection H as <- <-.
    unfold initializeInMemoryUsers. repeat (branch; cbn); auto.
    intros _. repeat constructor; simpl; intuition discriminate.
  - simpl. destruct (handle e st r w) as [st1 res1] eqn:Hh.
    intros H. injection H as <- <-.
    destruct (handle_frame e st r w) as (_ & _ & Hu & _). rewrite Hh in Hu. simpl in Hu.
    now rewrite Hu.
  - intros H. apply step_partial_flags in H as (_ & _ & ->); [auto | exact I].
  - intros H. apply step_partial_flags in H as (_ & _ & ->); [auto | exact I].
Qed.

Lemma run_users_unique (e : env) (evs : list event) :
  forall st st' log out,
    run e st evs = Some (st', log, out) ->
    NoDup (map User.email (users st)) -> NoDup (map User.email (users st')).
Proof.
  induction evs as [|ev evs IH]; intros st st' log out Hrun Hnd.
  - simpl in Hrun. injection Hrun as <- <- <-. exact Hnd.
  - apply run_cons in Hrun as (st1 & res & log' & out' & Hstep & Hrun & _).
    eapply IH; [exact Hrun|]. eapply step_users_unique; eauto.
Qed.

End Mode.

(** C1, the failing run: the server takes requests while the promise of
    [mongoose.connect] is still pending.  The admin's upload is served
    before the connection succeeds, from the in-memory array, and answered
    200; the listing served after it comes from the collection, and the
    uploaded record is not in it.  Two requests of one process are served
    from different backends. *)
Lemma C1_request_before_connection :
  option_map (fun x => (snd (fst x), snd x))
    (run Sample.env_set (init_state [] [Sample.old_doc] [])
       [Sample.upload_first;
        ConnectFulfilled;
        Request ListImages (Sample.world_at 1500 1500 "c")])
  = Some ([InMemory; Persistent],
          [mkResponse 200 (ImageBody Sample.first_image);
           mkResponse 200 (ImageList [Sample.old_doc])])
  /\ InMemory <> Persistent
  /\ ~ In Sample.first_image [Sample.old_doc].
Proof.
  split; [vm_compute; reflexivity|].
  split; [discriminate|].
  intros [H | []]. discriminate H.
Qed.

(** * Further properties of the handlers *)

(** ** Arrays: the first element that satisfies a test *)

Lemma findIndex_none {A : Type} (p : A -> bool) (l : list A) :
  findIndex p l = None <-> Forall (fun x => p x = false) l.
Proof.
  induction l as [|x l IH]; simpl.
  - split; [constructor | reflexivity].
  - destruct (p x) eqn:Hx.
    + split; [discriminate|]. intros H. inversion H; congruence.
    + destruct (findIndex p l) as [i|]; simpl.
      * split; [discriminate|]. intros H. inversion H; subst.
        apply IH in H3. discriminate.
      * split; [|reflexivity]. intros _. constructor; [exact Hx | now apply IH].
Qed.

Lemma findIndex_some {A : Type} (p : A -> bool) (l : list A) (i : nat) :
  findIndex p l = Some i ->
  exists l1 x l2,
    l = l1 ++ x :: l2 /\ List.length l1 = i /\ p x = true /\
    Forall (fun y => p y = false) l1.
Proof.
  revert i. induction l as [|y l IH]; simpl; intros i; [discriminate|].
  destruct (p y) eqn:Hy.
  - intros H. injection H as <-. exists [], y, l. auto.
  - destruct (findIndex p l) as [j|]; simpl; [|discriminate].
    intros H. injection H as <-.
    destruct (IH j eq_refl) as (l1 & x & l2 & -> & <- & Hx & Hl1).
    exists (y :: l1), x, l2. simpl. auto.
Qed.

Lemma update_at_middle {A : Type} (f : A -> A) (l1 l2 : list A) (x : A) :
  update_at (List.length l1) f (l1 ++ x :: l2) = l1 ++ f x :: l2.
Proof.
  induction l1 as [|y l1 IH]; simpl; [reflexivity | now rewrite IH].
Qed.

Lemma nth_error_middle {A : Type} (l1 l2 : list A) (x : A) :
  nth_error (l1 ++ x :: l2) (List.length l1) = Some x.
Proof.
  induction l1 as [|y l1 IH]; simpl; auto.
Qed.

Lemma splice1_middle {A : Type} (l1 l2 : list A) (x : A) :
  splice1 (List.length l1) (l1 ++ x :: l2) = l1 ++ l2.
Proof.
  induction l1 as [|y l1 IH]; simpl; [reflexivity | now rewrite IH].
Qed.

Lemma has_id_absent (id : string) (l : list Image.t) :
  ~ In id (ids l) <-> Forall (fun x => has_id id x = false) l.
Proof.
  unfold ids, has_id. induction l as [|x l IH]; simpl.
  - split; [constructor | tauto].
  - split.
    + intros H. constructor.
      * destruct (String.eqb_spec (Image._id x) id); [tauto | reflexivity].
      * apply IH. tauto.
    + intros H. inversion H as [|? ? Hx Hl]; subst. intros [Heq | Hin].
      * rewrite Heq, String.eqb_refl in Hx. discriminate.
      * now apply IH in Hl.
Qed.

(** The first record of a store that carries an id. *)
Lemma first_with_id (id : string) (l : list Image.t) :
  In id (ids l) ->
  exists l1 x l2,
    l = l1 ++ x :: l2 /\ Image._id x = id /\ ~ In id (ids l1) /\
    findIndex (has_id id) l = Some (List.length l1).
Proof.
  intros Hin.
  destruct (findIndex (has_id id) l) as [i|] eqn:Hfind.
  - destruct (findIndex_some _ _ _ Hfind) as (l1 & x & l2 & -> & <- & Hx & Hl1).
    exists l1, x, l2. repeat split; auto.
    + unfold has_id in Hx. now apply String.eqb_eq.
    + now apply has_id_absent.
  - apply findIndex_none, has_id_absent in Hfind. contradiction.
Qed.

(** ** Queries by id *)

Lemma findIndex_middle {A : Type} (p : A -> bool) (l1 l2 : list A) (x : A) :
  Forall (fun y => p y = false) l1 -> p x = true ->
  findIndex p (l1 ++ x :: l2) = Some (List.length l1).
Proof.
  intros Hl1 Hx. induction Hl1 as [|y l1 Hy _ IH]; simpl.
  - now rewrite Hx.
  - now rewrite Hy, IH.
Qed.

Lemma findById_absent (w : world) (id : string) (docs : list Image.t) :
  ~ In id (ids docs) -> isObjectId id = true -> ~ In (toLowerCase id) (ids docs) ->
  db_ok w = true ->
  findById w id docs = Ok None.
Proof.
  intros Habs Hoid Hlow Hdb. unfold findById.
  apply has_id_absent, findIndex_none in Habs. apply has_id_absent, findIndex_none in Hlow.
  now rewrite Habs, Hoid, Hdb, Hlow.
Qed.

Lemma findById_malformed (w : world) (id : string) (docs : list Image.t) :
  ~ In id (ids docs) -> isObjectId id = false ->
  findById w id docs = Throw (cast_error id).
Proof.
  intros Habs Hoid. unfold findById.
  apply has_id_absent, findIndex_none in Habs. now rewrite Habs, Hoid.
Qed.

Lemma findById_outage (w : world) (id : string) (docs : list Image.t) :
  db_ok w = false -> exists msg, findById w id docs = Throw msg.
Proof.
  intros Hdb. unfold findById. rewrite Hdb.
  destruct (findIndex (has_id id) docs); [eauto|].
  destruct (isObjectId id); eauto.
Qed.

Lemma findById_first (w : world) (id : string) (l1 l2 : list Image.t) (x : Image.t) :
  Image._id x = id -> ~ In id (ids l1) -> db_ok w = true ->
  findById w id (l1 ++ x :: l2) = Ok (Some (List.length l1)).
Proof.
  intros Hid Hl1 Hdb. apply findById_found; [|exact Hdb].
  apply findIndex_middle; [now apply has_id_absent|].
  unfold has_id. now apply String.eqb_eq.
Qed.

(** ** PUT /api/images/:id *)

(** X1: an update for an id that no record of the store in use carries
    leaves the state as it is.  On the fallback array it is answered 404
    "Image not found".  On the collection it is answered 404 when the id is
    an ObjectId (24 hexadecimal digits) that none of the documents has, and
    500 with the CastError when the id is no ObjectId, a request that does
    not reach the database (strings of 12 characters aside, which drivers
    have taken either way). *)
Theorem update_unknown_id (st : state) (w : world) (id : string) (title : jsval) :
  ~ In id (ids (active_images st)) ->
  (mongoConnected st = false ->
   update_handler st w id title = (st, mkResponse 404 (Message "Image not found"))) /\
  (mongoConnected st = true -> isObjectId id = true ->
   ~ In (toLowerCase id) (ids (db_images st)) -> db_ok w = true ->
   update_handler st w id title = (st, mkResponse 404 (Message "Image not found"))) /\
  (mongoConnected st = true -> isObjectId id = false -> String.length id <> 12%nat ->
   exists msg,
     update_handler st w id title = (st, mkResponse 500 (MessageError "Error updating image" msg))).
Proof.
  intros Habs. unfold update_handler, active_images in *.
  split; [|split].
  - intros Hmc. rewrite Hmc in *.
    apply has_id_absent, findIndex_none in Habs. now rewrite Habs.
  - intros Hmc Hoid Hlow Hdb. rewrite Hmc in *.
    now rewrite (findById_absent w id _ Habs Hoid Hlow Hdb).
  - intros Hmc Hoid _. rewrite Hmc in *.
    rewrite (findById_malformed w id _ Habs Hoid). eauto.
Qed.

Lemma update_unknown_id_witness :
  (exists msg,
      update_handler Sample.connected (Sample.world_at 1500 1500 "c") "0000" (JStr "Dusk")
      = (Sample.connected, mkResponse 500 (MessageError "Error updating image" msg))) /\
  update_handler Sample.connected (Sample.world_at 1500 1500 "c")
    "65F0C0FFEE65F0C0FFEE0009" (JStr "Dusk")
  = (Sample.connected, mkResponse 404 (Message "Image not found")).
Proof.
  split.
  - refine (proj2 (proj2 (update_unknown_id Sample.connected (Sample.world_at 1500 1500 "c")
                            "0000" (JStr "Dusk") _)) eq_refl eq_refl _).
    + simpl. intros [H | []]. discriminate H.
    + simpl. lia.
  - refine (proj1 (proj2 (update_unknown_id Sample.connected (Sample.world_at 1500 1500 "c")
                            "65F0C0FFEE65F0C0FFEE0009" (JStr "Dusk") _))
                  eq_refl eq_refl _ eq_refl).
    + simpl. intros [H | []]. discriminate H.
    + simpl. intros [H | []]. discriminate H.
Defined.

(** X2: an update for an id spelled as a record of the store in use carries
    it is answered 200 with the updated record, the database answering; only
    the first record with that id changes and only in its title; the other
    records, their order, the ids and the other store are as before.  The
    new title is the value of the body as it is on the fallback array.  On
    the collection it is that value cast to a string: a string as it is, a
    boolean as "true" or "false", an integer as [Number.prototype.toString]
    prints the double it denotes; null is stored as null, and an absent
    title leaves the title that was there. *)
Theorem update_known_id (st : state) (w : world) (id : string) (title : jsval) :
  In id (ids (active_images st)) ->
  (mongoConnected st = true -> db_ok w = true) ->
  exists l1 x l2,
    active_images st = l1 ++ x :: l2 /\ Image._id x = id /\ ~ In id (ids l1) /\
    let x' :=
      Image.set_title
        (if mongoConnected st
         then match title with
              | JUndefined => Image.title x
              | JNull => JNull
              | JBool true => JStr "true"
              | JBool false => JStr "false"
              | JNum n => JStr (Number_toString n)
              | JStr s => JStr s
              end
         else title) x in
    snd (update_handler st w id title) = mkResponse 200 (ImageBody x') /\
    active_images (fst (update_handler st w id title)) = l1 ++ x' :: l2 /\
    inactive_images (fst (update_handler st w id title)) = inactive_images st /\
    ids (active_images (fst (update_handler st w id title))) = ids (active_images st).
Proof.
  intros Hin Hdb.
  destruct (first_with_id id _ Hin) as (l1 & x & l2 & Hl & Hid & Hl1 & Hfind).
  exists l1, x, l2. split; [exact Hl|]. split; [exact Hid|]. split; [exact Hl1|].
  assert (Hcast : match title with
                  | JUndefined => Image.title x
                  | JNull => JNull
                  | JBool true => JStr "true"
                  | JBool false => JStr "false"
                  | JNum n => JStr (Number_toString n)
                  | JStr s => JStr s
                  end = cast_title_update title (Image.title x))
    by (destruct title as [| |[]|n|s]; reflexivity).
  rewrite Hcast. clear Hcast. cbv zeta.
  revert Hl Hfind. unfold update_handler, active_images, inactive_images.
  destruct (mongoConnected st) eqn:Hmc; intros Hl Hfind.
  - rewrite (findById_found w id _ _ Hfind (Hdb eq_refl)), Hl, update_at_middle, nth_error_middle.
    simpl. rewrite Hmc. unfold ids. rewrite !map_app. auto.
  - rewrite Hfind, Hl, update_at_middle, nth_error_middle.
    simpl. rewrite Hmc. unfold ids. rewrite !map_app. auto.
Qed.

Lemma update_known_id_witness :
  exists l1 x l2,
    active_images Sample.connected = l1 ++ x :: l2 /\
    Image._id x = "65f0c0ffee65f0c0ffee0000" /\
    snd (update_handler Sample.connected (Sample.world_at 1500 1500 "c")
           "65f0c0ffee65f0c0ffee0000" (JNum 1000000000000000000000))
    = mkResponse 200 (ImageBody (Image.set_title (JStr "1e+21") x)).
Proof.
  destruct (update_known_id Sample.connected (Sample.world_at 1500 1500 "c")
              "65f0c0ffee65f0c0ffee0000" (JNum 1000000000000000000000))
    as (l1 & x & l2 & H1 & H2 & _ & H3 & _).
  - simpl. auto.
  - reflexivity.
  - exists l1, x, l2. repeat split; [exact H1 | exact H2 |].
    rewrite H3. cbv zeta. f_equal.
Defined.

(** An id spelled in upper case denotes the ObjectId of the document. *)
Example update_upper_case_id :
  update_handler Sample.connected (Sample.world_at 1500 1500 "c")
    "65F0C0FFEE65F0C0FFEE0000" (JStr "Dusk")
  = (set_db_images [Image.set_title (JStr "Dusk") Sample.old_doc] Sample.connected,
     mkResponse 200 (ImageBody (Image.set_title (JStr "Dusk") Sample.old_doc))).
Proof.
  vm_compute. reflexivity.
Qed.

(** ** DELETE /api/images/:id *)

Lemma delete_handler_first (st : state) (w : world) (id : string)
    (l1 l2 : list Image.t) (x : Image.t) :
  active_images st = l1 ++ x :: l2 -> Image._id x = id -> ~ In id (ids l1) ->
  (mongoConnected st = true -> db_ok w = true) ->
  delete_handler st w id =
  match destroy_remote w x with
  | Throw msg => (st, mkResponse 500 (MessageError "Error deleting image" msg))
  | Ok _ =>
      (if mongoConnected st then set_db_images (l1 ++ l2) st else set_images (l1 ++ l2) st,
       mkResponse 200 (Message "Image deleted successfully"))
  end.
Proof.
  intros Hl Hid Hl1 Hdb.
  rewrite (delete_handler_found st w id (List.length l1) x).
  - destruct (destroy_remote w x); [|reflexivity].
    unfold active_images in Hl.
    destruct (mongoConnected st); rewrite Hl, splice1_middle; reflexivity.
  - rewrite Hl. apply findIndex_middle; [now apply has_id_absent|].
    unfold has_id. now apply String.eqb_eq.
  - rewrite Hl. apply nth_error_middle.
  - exact Hdb.
Qed.

(** X3: a delete for an id that no record of the store in use carries leaves
    the state as it is.  On the fallback array it is answered 404 "Image not
    found".  On the collection it is answered 404 when the id is an ObjectId
    that none of the documents has, and 500 with the CastError when the id
    is no ObjectId (strings of 12 characters aside). *)
Theorem delete_unknown_id (st : state) (w : world) (id : string) :
  ~ In id (ids (active_images st)) ->
  (mongoConnected st = false ->
   delete_handler st w id = (st, mkResponse 404 (Message "Image not found"))) /\
  (mongoConnected st = true -> isObjectId id = true ->
   ~ In (toLowerCase id) (ids (db_images st)) -> db_ok w = true ->
   delete_handler st w id = (st, mkResponse 404 (Message "Image not found"))) /\
  (mongoConnected st = true -> isObjectId id = false -> String.length id <> 12%nat ->
   exists msg,
     delete_handler st w id = (st, mkResponse 500 (MessageError "Error deleting image" msg))).
Proof.
  intros Habs. unfold delete_handler, delete_lookup, active_images in *.
  split; [|split].
  - intros Hmc. rewrite Hmc in *.
    apply has_id_absent, findIndex_none in Habs. now rewrite Habs.
  - intros Hmc Hoid Hlow Hdb. rewrite Hmc in *.
    now rewrite (findById_absent w id _ Habs Hoid Hlow Hdb).
  - intros Hmc Hoid _. rewrite Hmc in *.
    rewrite (findById_malformed w id _ Habs Hoid). eauto.
Qed.

Lemma delete_unknown_id_witness :
  delete_handler Sample.fallback (Sample.world_at 1500 1500 "c") "1000"
  = (Sample.fallback, mkResponse 404 (Message "Image not found")) /\
  exists msg,
    delete_handler Sample.connected (Sample.world_at 1500 1500 "c") "1000"
    = (Sample.connected, mkResponse 500 (MessageError "Error deleting image" msg)).
Proof.
  split.
  - refine (proj1 (delete_unknown_id Sample.fallback (Sample.world_at 1500 1500 "c") "1000" _)
                  eq_refl).
    simpl. tauto.
  - refine (proj2 (proj2 (delete_unknown_id Sample.connected (Sample.world_at 1500 1500 "c")
                            "1000" _)) eq_refl eq_refl _).
    + simpl. intros [H | []]. discriminate H.
    + simpl. lia.
Defined.

(** X4: when the media host fails to destroy the remote object of the first
    record with the id, the delete is answered 500 with the error of the
    host and the record stays in the store: the state is as it was. *)
Theorem delete_remote_failure (st : state) (w : world) (id msg : string)
    (l1 l2 : list Image.t) (x : Image.t) :
  active_images st = l1 ++ x :: l2 -> Image._id x = id -> ~ In id (ids l1) ->
  (mongoConnected st = true -> db_ok w = true) ->
  destroy_remote w x = Throw msg ->
  delete_handler st w id
  = (st, mkResponse 500 (MessageError "Error deleting image" msg)).
Proof.
  intros Hl Hid Hl1 Hdb Hdestroy.
  now rewrite (delete_handler_first st w id l1 l2 x Hl Hid Hl1 Hdb), Hdestroy.
Qed.

Lemma delete_remote_failure_witness :
  delete_handler Sample.connected
    (mkWorld 1500 1500 true "" "" (Throw "unavailable") (Throw "Request Timeout"))
    "65f0c0ffee65f0c0ffee0000"
  = (Sample.connected,
     mkResponse 500 (MessageError "Error deleting image" "Request Timeout")).
Proof.
  apply (delete_remote_failure Sample.connected
           (mkWorld 1500 1500 true "" "" (Throw "unavailable") (Throw "Request Timeout"))
           "65f0c0ffee65f0c0ffee0000" "Request Timeout" [] [] Sample.old_doc).
  - reflexivity.
  - reflexivity.
  - simpl. tauto.
  - reflexivity.
  - reflexivity.
Defined.

(** X5: a delete during whose await of the media host nothing else is
    served, for an id spelled as a record of the store in use carries it:
    when the remote object is destroyed (or the record names none), it is
    answered 200 "Image deleted successfully" and removes exactly the first
    record with the id: the records before and after it stay, in their
    order, and the other store and the directory are untouched. *)
Theorem delete_known_id (st : state) (w : world) (id : string)
    (l1 l2 : list Image.t) (x : Image.t) :
  active_images st = l1 ++ x :: l2 -> Image._id x = id -> ~ In id (ids l1) ->
  (mongoConnected st = true -> db_ok w = true) ->
  destroy_remote w x = Ok tt ->
  snd (delete_handler st w id) = mkResponse 200 (Message "Image deleted successfully") /\
  active_images (fst (delete_handler st w id)) = l1 ++ l2 /\
  inactive_images (fst (delete_handler st w id)) = inactive_images st /\
  uploads (fst (delete_handler st w id)) = uploads st.
Proof.
  intros Hl Hid Hl1 Hdb Hdestroy.
  rewrite (delete_handler_first st w id l1 l2 x Hl Hid Hl1 Hdb), Hdestroy.
  unfold active_images, inactive_images.
  destruct (mongoConnected st) eqn:Hmc; simpl; rewrite Hmc; auto.
Qed.

Lemma delete_known_id_witness :
  snd (delete_handler (set_images [Sample.first_image; Sample.second_image] Sample.fallback)
         (Sample.world_at 1500 1500 "c") "1000")
  = mkResponse 200 (Message "Image deleted successfully") /\
  active_images
    (fst (delete_handler (set_images [Sample.first_image; Sample.second_image] Sample.fallback)
            (Sample.world_at 1500 1500 "c") "1000"))
  = [Sample.first_image].
Proof.
  destruct (delete_known_id
              (set_images [Sample.first_image; Sample.second_image] Sample.fallback)
              (Sample.world_at 1500 1500 "c") "1000"
              [Sample.first_image] [] Sample.second_image) as (H1 & H2 & _).
  - reflexivity.
  - reflexivity.
  - simpl. intros [H | []]. discriminate H.
  - discriminate.
  - reflexivity.
  - split; [exact H1 | exact H2].
Defined.

(** The delete served in two parts with a listing in between: the handler
    finds the record of id "1000" at index 0 and awaits the media host; the
    listing sorts the array in place, which puts the newer record at index
    0; the handler resumes and removes index 0.  The request for "1000" is
    answered 200, the record "2000" is gone and "1000" is still there. *)
Example delete_overtaken_by_listing :
  option_map (fun x => (images (fst (fst x)), snd x))
    (run Sample.env_set (set_images [Sample.older_image; Sample.newer_image] Sample.fallback)
       [DeleteReceived (Sample.bearer Sample.admin_token) "1000" (Sample.world_at 3000 3000 "c");
        Request ListImages (Sample.world_at 3001 3001 "c");
        Resume 0 (Sample.world_at 3002 3002 "c") (Throw "")])
  = Some ([Sample.older_image],
          [mkResponse 200 (ImageList [Sample.newer_image; Sample.older_image]);
           mkResponse 200 (Message "Image deleted successfully")]).
Proof.
  vm_compute. reflexivity.
Qed.

Section TwoParts.

Context {C : Crypto}.

(** The handler that runs through is its two parts one after the other: a
    DELETE request served up to the media host and resumed before anything
    else is served, with the same outcomes of the external calls, gives the
    answer and the state of the request served in one piece. *)
Lemma delete_two_parts (e : env) (st : state) (h : option string) (id : string) (w : world)
    (hash : result string) :
  match step e st (DeleteReceived h id w) with
  | Some (st1, Some res) => handle e st (DeleteImage h id) w = (st1, res)
  | Some (st1, None) =>
      exists st2 res,
        step e st1 (Resume (List.length (inflight st)) w hash) = Some (st2, Some res) /\
        handle e st (DeleteImage h id) w = (st2, res)
  | None => False
  end.
Proof.
  cbn [step handle]. destruct (admin_gate e w h) as [res|user]; [reflexivity|].
  unfold delete_handler. destruct (delete_lookup st w id) as [res|[image d]]; [reflexivity|].
  unfold destroy_remote. destruct (required (Image.cloudinaryId image)).
  - cbn [step inflight set_inflight]. rewrite nth_error_last, splice1_last.
    replace (set_inflight (inflight st) (set_inflight (inflight st ++ [Deleting d]) st))
      with st by (destruct st; reflexivity).
    destruct (delete_finish st w d (cloud_destroy w)) as [st2 res]. eauto.
  - destruct (delete_finish st w d (Ok tt)) as [st2 res]. reflexivity.
Qed.

End TwoParts.

(** ** GET /api/images, again *)

(** X6: listing twice in a row gives the same answer twice, and the second
    listing leaves the state as the first one left it: the in-place sort of
    the fallback array has nothing left to move. *)
Theorem list_images_twice (st : state) (w w' : world) :
  (mongoConnected st = true -> db_ok w = true /\ db_ok w' = true) ->
  list_images (fst (list_images st w)) w' = list_images st w.
Proof.
  intros Hdb. unfold list_images.
  destruct (mongoConnected st) eqn:Hmc.
  - destruct (Hdb eq_refl) as [-> ->]. simpl. now rewrite Hmc.
  - simpl. rewrite Hmc. simpl.
    rewrite (js_sort_fixes_sorted _ (js_sort_newest_first (images st))).
    destruct st; reflexivity.
Qed.

Lemma list_images_twice_witness :
  list_images
    (fst (list_images (set_images [Sample.older_image; Sample.newer_image] Sample.fallback)
            (Sample.world_at 3000 3000 "c")))
    (Sample.world_at 4000 4000 "d")
  = list_images (set_images [Sample.older_image; Sample.newer_image] Sample.fallback)
      (Sample.world_at 3000 3000 "c").
Proof.
  apply list_images_twice. discriminate.
Defined.

(** ** POST /api/images/upload, again *)

(** X7: an upload that is answered 200 has removed its staging file and no
    other file of [uploads/], and the title of the new record is the title
    of the body when that is truthy and "Untitled" otherwise. *)
Theorem upload_success_cleans_up (st st' : state) (w : world) (title : jsval)
    (path : string) (i : Image.t) :
  upload_handler st w title (Some path) = (st', mkResponse 200 (ImageBody i)) ->
  In path (uploads st) /\
  ~ In path (uploads st') /\
  (forall f, f <> path -> (In f (uploads st') <-> In f (uploads st))) /\
  Image.title i = (if truthy title then title else JStr "Untitled").
Proof.
  unfold upload_handler, unlinkSync, save_image.
  destruct (cloud_upload w) as [[secure_url public_id]|msg]; [|discriminate].
  destruct (existsb (String.eqb path) (uploads st)) eqn:Hex; [|discriminate].
  assert (Hfiles :
            ~ In path (filter (fun f => negb (String.eqb f path)) (uploads st)) /\
            forall f, f <> path ->
                      (In f (filter (fun f => negb (String.eqb f path)) (uploads st)) <->
                       In f (uploads st))).
  { split.
    - intros H. apply filter_In in H as [_ H]. now rewrite String.eqb_refl in H.
    - intros f Hf. rewrite filter_In.
      destruct (String.eqb_spec f path); [contradiction|]. simpl. tauto. }
  assert (Hin : In path (uploads st)).
  { apply existsb_exists in Hex as (f & Hf & Heq). apply String.eqb_eq in Heq. now subst. }
  destruct (mongoConnected st).
  - destruct (negb (db_ok w)); [discriminate|].
    match goal with |- context [if ?b then Ok _ else _] => destruct b end; [|discriminate].
    intros H. injection H as <- <-. simpl. tauto.
  - intros H. injection H as <- <-. simpl. tauto.
Qed.

Lemma upload_success_cleans_up_witness :
  In "uploads/1000-a.png" (uploads Sample.staged) /\
  ~ In "uploads/1000-a.png"
       (uploads (fst (upload_handler Sample.staged (Sample.world_at 1000 1000 "a")
                        (JStr "") (Some "uploads/1000-a.png")))) /\
  Image.title (Image.set_title (JStr "Untitled") Sample.older_image) = JStr "Untitled".
Proof.
  destruct (upload_success_cleans_up Sample.staged
              (fst (upload_handler Sample.staged (Sample.world_at 1000 1000 "a")
                      (JStr "") (Some "uploads/1000-a.png")))
              (Sample.world_at 1000 1000 "a") (JStr "") "uploads/1000-a.png"
              (Image.set_title (JStr "Untitled") Sample.older_image)
              eq_refl) as (H1 & H2 & _ & H3).
  split; [exact H1 | split; [exact H2 | exact H3]].
Defined.

(** ** What a request can do to the stores *)

Lemma update_at_length {A : Type} (f : A -> A) (l : list A) (i : nat) :
  List.length (update_at i f l) = List.length l.
Proof.
  revert i. induction l as [|x l IH]; intros [|i]; simpl; auto.
Qed.

Lemma update_handler_size (st : state) (w : world) (id : string) (title : jsval) :
  List.length (active_images (fst (update_handler st w id title)))
  = List.length (active_images st).
Proof.
  unfold update_handler, active_images.
  destruct (mongoConnected st) eqn:Hmc.
  - destruct (findById w id (db_images st)) as [[i|]|msg]; simpl; try now rewrite Hmc.
    destruct (nth_error _ i); simpl; rewrite Hmc; [apply update_at_length | reflexivity].
  - destruct (findIndex (has_id id) (images st)) as [i|]; simpl; [|now rewrite Hmc].
    destruct (nth_error _ i); simpl; rewrite Hmc; [apply update_at_length | reflexivity].
Qed.

Lemma splice1_length {A : Type} (l : list A) (i : nat) (x : A) :
  nth_error l i = Some x -> S (List.length (splice1 i l)) = List.length l.
Proof.
  revert i. induction l as [|y l IH]; intros [|i]; simpl; try discriminate.
  - reflexivity.
  - intros H. now rewrite (IH i H).
Qed.

(** A delete that runs through removes one record exactly when it answers
    200. *)
Lemma delete_handler_size (st : state) (w : world) (id : string) :
  (status (snd (delete_handler st w id)) = 200 ->
   S (List.length (active_images (fst (delete_handler st w id))))
   = List.length (active_images st)) /\
  (status (snd (delete_handler st w id)) <> 200 ->
   List.length (active_images (fst (delete_handler st w id)))
   = List.length (active_images st)).
Proof.
  unfold delete_handler, delete_lookup, delete_finish, active_images.
  destruct (mongoConnected st) eqn:Hmc.
  - destruct (findById w id (db_images st)) as [[i|]|msg] eqn:Hf; simpl;
      try (rewrite Hmc; split; [discriminate | reflexivity]).
    destruct (nth_error (db_images st) i) as [image|] eqn:Hnth; simpl;
      try (rewrite Hmc; split; [discriminate | reflexivity]).
    destruct (destroy_remote w image); simpl;
      try (rewrite Hmc; split; [discriminate | reflexivity]).
    rewrite Hf. simpl. rewrite Hmc.
    split; [intros _; exact (splice1_length _ _ _ Hnth) | intros H; now contradiction H].
  - destruct (findIndex (has_id id) (images st)) as [i|]; simpl;
      try (rewrite Hmc; split; [discriminate | reflexivity]).
    destruct (nth_error (images st) i) as [image|] eqn:Hnth; simpl;
      try (rewrite Hmc; split; [discriminate | reflexivity]).
    destruct (destroy_remote w image); simpl;
      try (rewrite Hmc; split; [discriminate | reflexivity]).
    rewrite Hmc.
    split; [intros _; exact (splice1_length _ _ _ Hnth) | intros H; now contradiction H].
Qed.

Section Requests.

Context {C : Crypto}.

(** The gate never refuses with a 200. *)
Lemma admin_gate_refusal (e : env) (w : world) (h : option string) (res : response) :
  admin_gate e w h = inl res -> status res <> 200.
Proof.
  unfold admin_gate, authenticateToken, isAdmin.
  destruct (header_token h) as [token|]; [|intros H; injection H as <-; discriminate].
  destruct (String.eqb token ""); [intros H; injection H as <-; discriminate|].
  destruct (jwt_verify token (verify_secret e) (now w)) as [err|c];
    [intros H; injection H as <-; discriminate|].
  destruct (negb (Claims.isAdmin c)); [intros H; injection H as <-; discriminate|].
  discriminate.
Qed.

(** X8: the number of records of the store in use changes with a request
    that runs through in two ways only: an upload adds one record exactly
    when it is answered 200, and a delete removes one record exactly when it
    is answered 200.  A login, a listing, a title update, and every upload
    or delete that is refused or fails leave the number as it is. *)
Theorem handle_store_size (e : env) (st : state) (r : request) (w : world) :
  let n := List.length (active_images st) in
  let n' := List.length (active_images (fst (handle e st r w))) in
  match r with
  | Upload _ _ =>
      (status (snd (handle e st r w)) = 200 -> n' = S n) /\
      (status (snd (handle e st r w)) <> 200 -> n' = n)
  | DeleteImage _ _ =>
      (status (snd (handle e st r w)) = 200 -> S n' = n) /\
      (status (snd (handle e st r w)) <> 200 -> n' = n)
  | _ => n' = n
  end.
Proof.
  destruct r as [email password| |h m|h id title|h id]; simpl.
  - reflexivity.
  - unfold list_images, active_images.
    destruct (mongoConnected st) eqn:Hmc.
    + destruct (db_ok w); simpl; now rewrite Hmc.
    + simpl. rewrite Hmc. apply Permutation_length, js_sort_perm.
  - pose proof (handle_flags e st (Upload h m) w) as [Hflag _]. simpl in Hflag.
    destruct (admin_gate e w h) as [res|user] eqn:Hg.
    { simpl. split; [|reflexivity]. intros H. now apply admin_gate_refusal in Hg. }
    destruct m as [msg|title file]; [simpl; split; [discriminate | reflexivity]|].
    destruct (upload_handler (multer_store file st) w title file) as [st' res] eqn:Hup.
    destruct (multer_store_images file st) as (Hi & Hd & Hm).
    apply upload_handler_cases in Hup as [(Hi' & Hd' & Hs) | (i & -> & _ & Ha & _)];
      simpl in *.
    + split; [intros H; contradiction|]. intros _.
      unfold active_images. rewrite Hflag, Hi', Hd', Hi, Hd. reflexivity.
    + split; [|intros H; now contradiction H]. intros _.
      rewrite Ha. unfold active_images. rewrite Hm, Hi, Hd, length_app. simpl. lia.
  - destruct (admin_gate e w h) as [res|user]; [reflexivity|]. apply update_handler_size.
  - destruct (admin_gate e w h) as [res|user] eqn:Hg.
    { simpl. split; [|reflexivity]. intros H. now apply admin_gate_refusal in Hg. }
    apply delete_handler_size.
Qed.

End Requests.

(** On two requests: an upload that is answered 200 leaves one record more,
    an upload without a token leaves the store as it was. *)
Example handle_store_size_upload :
  List.length (active_images
                 (fst (handle Sample.env_set (set_images [Sample.twin_image] Sample.fallback)
                         (Upload (Sample.bearer Sample.admin_token)
                                 (MulterOk (JStr "Second") (Some "uploads/1000-b.png")))
                         (Sample.world_at 1000 1000 "b")))) = 2%nat /\
  List.length (active_images
                 (fst (handle Sample.env_set (set_images [Sample.twin_image] Sample.fallback)
                         (Upload None (MulterOk (JStr "Second") (Some "uploads/1000-b.png")))
                         (Sample.world_at 1000 1000 "b")))) = 1%nat.
Proof.
  split; vm_compute; reflexivity.
Qed.

(** ** The credential stores *)

Section Credentials.

Context {C : Crypto}.

(** X9: no request creates, changes or removes a user: after any request
    both credential stores are as before. *)
Theorem handle_keeps_users (e : env) (st : state) (r : request) (w : world) :
  users (fst (handle e st r w)) = users st /\
  db_users (fst (handle e st r w)) = db_users st.
Proof.
  destruct (handle_frame e st r w) as (_ & _ & Hu & Hdu & _). auto.
Qed.

(** X10: once the fallback users are seeded, with hashes that match the two
    fixed passwords, and with a signing secret in place, the admin account
    logs in with the admin flag, the user account logs in without it, and
    a login with any other email is answered 401. *)
Theorem fallback_seeded_logins (e : env) (st : state) (w : world) (mc : bool)
    (hashedAdminPassword hashedUserPassword k : string) :
  mongoConnected st = false ->
  JWT_SECRET e = Some k -> k <> "" ->
  bcrypt_compare "admin123" hashedAdminPassword = true ->
  bcrypt_compare "password123" hashedUserPassword = true ->
  let st' := initializeInMemoryUsers (Ok hashedAdminPassword) (Ok hashedUserPassword) st in
  (exists token,
      login e w st' mc (JStr "admin@gmail.com") (JStr "admin123")
      = mkResponse 200 (TokenBody token true)) /\
  (exists token,
      login e w st' mc (JStr "user@gmail.com") (JStr "password123")
      = mkResponse 200 (TokenBody token false)) /\
  (forall email password,
      email <> JStr "admin@gmail.com" -> email <> JStr "user@gmail.com" ->
      login e w st' mc email password = mkResponse 401 (Message "Invalid credentials")).
Proof.
  intros Hmc Hk Hne HA HU. cbv zeta.
  unfold login, find_user, jwt_sign, sign_secret, initializeInMemoryUsers.
  cbn [mongoConnected users set_users]. rewrite Hmc, Hk.
  destruct (String.eqb_spec k ""); [contradiction|].
  split; [|split].
  - cbn [find str_strict_eq User.email]. rewrite String.eqb_refl.
    cbn [bcrypt_compare_js User.password]. rewrite HA. eauto.
  - cbn [find str_strict_eq User.email].
    replace (String.eqb "admin@gmail.com" "user@gmail.com") with false by reflexivity.
    rewrite String.eqb_refl.
    cbn [bcrypt_compare_js User.password]. rewrite HU. eauto.
  - intros email password H1 H2.
    destruct email as [| |b|z|s]; try reflexivity.
    cbn [find str_strict_eq User.email].
    destruct (String.eqb_spec "admin@gmail.com" s) as [Heq|_];
      [exfalso; apply H1; now rewrite Heq|].
    destruct (String.eqb_spec "user@gmail.com" s) as [Heq|_];
      [exfalso; apply H2; now rewrite Heq|].
    reflexivity.
Qed.

End Credentials.

Lemma fallback_seeded_logins_witness :
  exists token,
    login Sample.env_set (Sample.world_at 1000 1000 "a")
      (initializeInMemoryUsers (Ok (Toy.hash "admin123")) (Ok (Toy.hash "password123"))
         (init_state [] [] []))
      false (JStr "admin@gmail.com") (JStr "admin123")
    = mkResponse 200 (TokenBody token true).
Proof.
  refine (proj1 (fallback_seeded_logins Sample.env_set (init_state [] [] [])
                   (Sample.world_at 1000 1000 "a") false
                   (Toy.hash "admin123") (Toy.hash "password123") "s3cret"
                   eq_refl eq_refl _ eq_refl eq_refl)).
  discriminate.
Defined.

(** ** The authorization header *)

Lemma split_no_space (s : string) :
  no_space s = true -> split " " s = [s].
Proof.
  induction s as [|c s IH]; simpl; [reflexivity|].
  intros H. apply andb_prop in H as [Hc Hs].
  destruct (Ascii.eqb c " "); [discriminate|]. now rewrite IH.
Qed.

Lemma split_first_word (s rest : string) :
  no_space s = true ->
  split " " (String.append s (String " " rest)) = s :: split " " rest.
Proof.
  induction s as [|c s IH]; simpl; [reflexivity|].
  intros H. apply andb_prop in H as [Hc Hs].
  destruct (Ascii.eqb c " "); [discriminate|]. now rewrite IH.
Qed.

Lemma header_not_empty (s rest : string) :
  String.eqb (String.append s (String " " rest)) "" = false.
Proof.
  destruct s; reflexivity.
Qed.

Lemma header_token_word (scheme token : string) :
  no_space scheme = true -> no_space token = true ->
  header_token (authorization scheme token) = Some token.
Proof.
  intros Hs Ht. unfold header_token, authorization.
  now rewrite header_not_empty, split_first_word, split_no_space.
Qed.

(** X12: the token the middleware reads is the second word of the header,
    whatever the first word is (Bearer or any other scheme, also an empty
    one); what follows a second space is ignored; and a header of one word
    carries no token. *)
Theorem header_token_second (scheme token rest : string) :
  no_space scheme = true -> no_space token = true ->
  header_token (authorization scheme token) = Some token /\
  header_token (authorization scheme (String.append token (String " " rest))) = Some token /\
  header_token (Some scheme) = (if String.eqb scheme "" then Some "" else None).
Proof.
  intros Hs Ht. unfold header_token, authorization.
  rewrite !header_not_empty, !split_first_word by assumption.
  rewrite split_no_space by assumption.
  repeat split.
  destruct (String.eqb scheme ""); [reflexivity|].
  now rewrite split_no_space.
Qed.

Lemma header_token_second_witness :
  header_token (authorization "Basic" (String.append Sample.admin_token " trailing"))
  = Some Sample.admin_token.
Proof.
  refine (proj1 (proj2 (header_token_second "Basic" Sample.admin_token "trailing" _ _)));
    reflexivity.
Defined.

(** ** From the login to the gate *)

Section Session.

Context {C : Crypto} {L : CryptoLaws C}.

Lemma authenticateToken_bearer (e : env) (w : world) (token : string) :
  no_space token = true -> token <> "" ->
  authenticateToken e w (authorization "Bearer" token) =
  match jwt_verify token (verify_secret e) (now w) with
  | inl _ => inl (mkResponse 403 (Message "Invalid token"))
  | inr user => inr user
  end.
Proof.
  intros Hns Hne. apply authenticateToken_present; [|exact Hne].
  now apply header_token_word.
Qed.

(** X13: the token of a successful login, sent back as a Bearer header,
    opens the admin routes for an admin account until 24 hours after the
    login; for an account without the admin flag it is answered 403 "Admin
    access required"; from 24 hours on it is answered 403 "Invalid token"
    for both.  The token is a non-empty word without a space, as compact
    tokens are. *)
Theorem login_token_at_gate (e : env) (st : state) (w : world) (mc : bool)
    (email password : jsval) (u : User.t) (k : string) :
  JWT_SECRET e = Some k -> k <> "" ->
  find_user st w email = Ok (Some u) ->
  bcrypt_compare_js password (User.password u) = Ok true ->
  exists token,
    login e w st mc email password = mkResponse 200 (TokenBody token (User.isAdmin u)) /\
    (no_space token = true -> token <> "" ->
     (forall w', seconds (now w') < seconds (now w) + 86400 ->
        admin_gate e w' (authorization "Bearer" token) =
        if User.isAdmin u
        then inr (Claims.mk (if mc then User._id u else User.id u) (User.email u) true
                            (seconds (now w)) (Some (seconds (now w) + 86400)))
        else inl (mkResponse 403 (Message "Admin access required"))) /\
     (forall w', seconds (now w) + 86400 <= seconds (now w') ->
        admin_gate e w' (authorization "Bearer" token)
        = inl (mkResponse 403 (Message "Invalid token")))).
Proof.
  intros Hk Hne Hfind Hcmp.
  destruct (jwt_sign_verify e k (if mc then User._id u else User.id u)
              (User.email u) (User.isAdmin u) (now w) Hk Hne)
    as (token & Hsign & Hlive & Hdead).
  exists token. split.
  - unfold login. now rewrite Hfind, Hcmp, Hsign.
  - intros Hns Hne'. split; intros w' Hw'; unfold admin_gate;
      rewrite (authenticateToken_bearer e w' token Hns Hne').
    + rewrite (Hlive (now w') Hw'). unfold isAdmin. simpl.
      now destruct (User.isAdmin u).
    + now rewrite (Hdead (now w') Hw').
Qed.

(** X14: with JWT_SECRET unset (or empty) the gate verifies with the
    hard-coded 'your_jwt_secret': a token signed with that string, carrying
    a true admin flag and not expired, opens the admin routes, whoever
    signed it. *)
Theorem unset_secret_gate_key (e : env) (w : world) (c : Claims.t) :
  JWT_SECRET e = None \/ JWT_SECRET e = Some "" ->
  Claims.isAdmin c = true ->
  (forall x, Claims.exp c = Some x -> seconds (now w) < x) ->
  no_space (jws_encode c "your_jwt_secret") = true ->
  jws_encode c "your_jwt_secret" <> "" ->
  admin_gate e w (authorization "Bearer" (jws_encode c "your_jwt_secret")) = inr c.
Proof.
  intros Hunset Hadm Hexp Hns Hne. unfold admin_gate.
  rewrite (authenticateToken_bearer e w _ Hns Hne).
  assert (Hkey : verify_secret e = "your_jwt_secret").
  { unfold verify_secret. destruct Hunset as [-> | ->]; reflexivity. }
  unfold jwt_verify. rewrite Hkey, jws_roundtrip.
  destruct (Claims.exp c) as [x|] eqn:Hx.
  - specialize (Hexp x eq_refl).
    destruct (Z.leb_spec x (seconds (now w))); [lia|].
    unfold isAdmin. now rewrite Hadm.
  - unfold isAdmin. now rewrite Hadm.
Qed.

End Session.

Lemma login_token_at_gate_witness :
  exists token,
    login Sample.env_set (Sample.world_at 1000 1000 "a") Sample.fallback false
          (JStr "user@gmail.com") (JStr "password123")
    = mkResponse 200 (TokenBody token false).
Proof.
  destruct (login_token_at_gate (L := toy_laws) Sample.env_set Sample.fallback
              (Sample.world_at 1000 1000 "a") false
              (JStr "user@gmail.com") (JStr "password123") Sample.user "s3cret")
    as (token & Hlogin & _).
  - reflexivity.
  - discriminate.
  - reflexivity.
  - reflexivity.
  - exists token. exact Hlogin.
Defined.

Lemma unset_secret_gate_key_witness :
  admin_gate Sample.env_unset (Sample.world_at 5000 5000 "a")
    (authorization "Bearer"
       (jws_encode (Claims.mk (JStr "anyone") "mallory@example.org" true 0 None)
                   "your_jwt_secret"))
  = inr (Claims.mk (JStr "anyone") "mallory@example.org" true 0 None).
Proof.
  apply (unset_secret_gate_key (L := toy_laws)).
  - left. reflexivity.
  - reflexivity.
  - discriminate.
  - reflexivity.
  - discriminate.
Defined.

(** ** The upload filter *)

Lemma list_ascii_of_string_append (s t : string) :
  list_ascii_of_string (String.append s t) = list_ascii_of_string s ++ list_ascii_of_string t.
Proof.
  induction s as [|c s IH]; simpl; [reflexivity | now rewrite IH].
Qed.

(** Without a dot, the scan finds no extension. *)
Lemma extname_scan_no_dot (rest : list ascii) :
  ~ In "."%char rest ->
  forall matchedSlash ended tail left preDotState,
    extname_scan rest matchedSlash ended tail None left preDotState = EmptyString.
Proof.
  induction rest as [|c rest IH]; intros Hdot ms en tail left pds; simpl; [reflexivity|].
  assert (Hrest : ~ In "."%char rest) by (intros H; apply Hdot; now right).
  destruct (Ascii.eqb c "/"); [destruct (negb ms); auto|].
  destruct (Ascii.eqb_spec c "."); [subst; exfalso; apply Hdot; now left | auto].
Qed.

(** Once a dot with something behind it has been met and a character before
    it has been read, the extension is settled. *)
Lemma extname_scan_settled (rest : list ascii) (ext : list ascii) :
  (2 <= List.length ext)%nat ->
  forall tail left preDotState,
    preDotState = 1 \/ preDotState = -1 ->
    extname_scan rest false true tail (Some ext) left preDotState = string_of_list_ascii ext.
Proof.
  intros Hlen. induction rest as [|c rest IH]; intros tail left pds Hpds; simpl.
  - destruct Hpds as [-> | ->]; simpl;
      destruct (List.length ext) as [|[|n]]; try lia; reflexivity.
  - destruct (Ascii.eqb c "/").
    + destruct Hpds as [-> | ->]; simpl;
        destruct (List.length ext) as [|[|n]]; try lia; reflexivity.
    + destruct (Ascii.eqb c "."); apply IH; auto.
Qed.

(** The characters behind the last dot are read without a decision. *)
Lemma extname_scan_plain (l rest : list ascii) :
  ~ In "."%char l -> ~ In "/"%char l -> l <> [] ->
  extname_scan (l ++ rest) true false [] None O 0
  = extname_scan rest false true (rev l) None O 0.
Proof.
  intros Hdot Hslash Hne.
  assert (Hgen : forall l tail ms en,
             ~ In "."%char l -> ~ In "/"%char l -> l <> [] ->
             extname_scan (l ++ rest) ms en tail None O 0
             = extname_scan rest false true (rev l ++ (if en then tail else [])) None O 0).
  { clear. induction l as [|c l IH]; intros tail ms en Hdot Hslash Hne; [contradiction|].
    simpl.
    destruct (Ascii.eqb_spec c "/"); [subst; exfalso; apply Hslash; now left|].
    destruct (Ascii.eqb_spec c "."); [subst; exfalso; apply Hdot; now left|].
    destruct l as [|d l].
    - reflexivity.
    - rewrite IH.
      + simpl. now rewrite <- !app_assoc.
      + intros H. apply Hdot. now right.
      + intros H. apply Hslash. now right.
      + discriminate. }
  rewrite (Hgen l [] true false Hdot Hslash Hne). now rewrite app_nil_r.
Qed.

Lemma extname_stem_ext (stem ext : string) (c : ascii) :
  c <> "/"%char ->
  ext <> "" ->
  ~ In "."%char (list_ascii_of_string ext) ->
  ~ In "/"%char (list_ascii_of_string ext) ->
  extname (String.append stem (String c (String "." ext))) = String "." ext.
Proof.
  intros Hc Hne Hdot Hslash. unfold extname.
  rewrite list_ascii_of_string_append. simpl list_ascii_of_string.
  rewrite rev_app_distr. simpl rev. rewrite <- !app_assoc. simpl app.
  rewrite extname_scan_plain.
  - rewrite rev_involutive. simpl.
    destruct (Ascii.eqb_spec c "/"); [contradiction|].
    assert (Hlen : (2 <= List.length ("."%char :: list_ascii_of_string ext))%nat).
    { destruct ext; [contradiction | simpl; lia]. }
    destruct (Ascii.eqb c ".");
      rewrite (extname_scan_settled _ _ Hlen) by auto;
      simpl; now rewrite string_of_list_ascii_of_string.
  - intros H. apply in_rev in H. contradiction.
  - intros H. apply in_rev in H. contradiction.
  - destruct ext; [contradiction|]. simpl. intros H. apply app_eq_nil in H as [_ H]. discriminate.
Qed.

Lemma includes_after_dot (pat s : string) :
  String.prefix pat (String "." s) = false ->
  includes pat (String "." s) = includes pat s.
Proof.
  intros H.
  change (includes pat (String "." s))
    with (String.prefix pat (String "." s) || includes pat s).
  now rewrite H.
Qed.

Lemma filetypes_test_after_dot (s : string) :
  filetypes_test (String "." s) = filetypes_test s.
Proof.
  unfold filetypes_test. now rewrite !includes_after_dot by reflexivity.
Qed.

Lemma filetypes_test_empty : filetypes_test "" = false.
Proof.
  reflexivity.
Qed.

(** X15: a file whose name has no dot is refused, whatever its declared
    type: the filter needs an extension. *)
Theorem fileFilter_no_dot (mimetype originalname : string) :
  ~ In "."%char (list_ascii_of_string originalname) ->
  fileFilter mimetype originalname = Throw "Only image files are allowed!".
Proof.
  intros Hdot. unfold fileFilter, extname.
  rewrite extname_scan_no_dot.
  - simpl toLowerCase. rewrite filetypes_test_empty.
    now destruct (filetypes_test mimetype).
  - intros H. apply in_rev in H. contradiction.
Qed.

Lemma fileFilter_no_dot_witness :
  fileFilter "image/png" "holiday_png" = Throw "Only image files are allowed!".
Proof.
  apply fileFilter_no_dot. simpl. intuition discriminate.
Defined.

(** X16: a file is accepted when its declared type contains one of jpeg,
    jpg, png, gif and its name ends in a dot and an extension that, put in
    lower case, contains one of them; the name before the dot may be
    anything that does not end in a slash, dots included. *)
Theorem fileFilter_accepts (mimetype stem ext : string) (c : ascii) :
  filetypes_test mimetype = true ->
  filetypes_test (toLowerCase ext) = true ->
  c <> "/"%char ->
  ~ In "."%char (list_ascii_of_string ext) ->
  ~ In "/"%char (list_ascii_of_string ext) ->
  fileFilter mimetype (String.append stem (String c (String "." ext))) = Ok true.
Proof.
  intros Hm He Hc Hdot Hslash. unfold fileFilter.
  rewrite extname_stem_ext; auto.
  - simpl toLowerCase.
    replace (lower_char ".") with "."%char by reflexivity.
    now rewrite filetypes_test_after_dot, Hm, He.
  - intros ->. discriminate He.
Qed.

Lemma fileFilter_accepts_witness :
  fileFilter "image/jpeg" "shots/IMG.0042.final.JPG" = Ok true.
Proof.
  apply (fileFilter_accepts "image/jpeg" "shots/IMG.0042.fina" "JPG" "l").
  - reflexivity.
  - reflexivity.
  - discriminate.
  - simpl. intuition discriminate.
  - simpl. intuition discriminate.
Defined.

Lemma lower_char_keeps_slash (c : ascii) :
  Ascii.eqb (lower_char c) "/" = Ascii.eqb c "/".
Proof.
  destruct c as [[] [] [] [] [] [] [] []]; reflexivity.
Qed.

Lemma lower_char_keeps_dot (c : ascii) :
  Ascii.eqb (lower_char c) "." = Ascii.eqb c ".".
Proof.
  destruct c as [[] [] [] [] [] [] [] []]; reflexivity.
Qed.

Lemma lower_char_twice (c : ascii) : lower_char (lower_char c) = lower_char c.
Proof.
  destruct c as [[] [] [] [] [] [] [] []]; reflexivity.
Qed.

Lemma toLowerCase_twice (s : string) : toLowerCase (toLowerCase s) = toLowerCase s.
Proof.
  induction s as [|c s IH]; simpl; [reflexivity | now rewrite lower_char_twice, IH].
Qed.

Lemma toLowerCase_chars (l : list ascii) :
  toLowerCase (string_of_list_ascii l) = string_of_list_ascii (map lower_char l).
Proof.
  induction l as [|c l IH]; simpl; [reflexivity | now rewrite IH].
Qed.

Lemma list_ascii_of_toLowerCase (s : string) :
  list_ascii_of_string (toLowerCase s) = map lower_char (list_ascii_of_string s).
Proof.
  induction s as [|c s IH]; simpl; [reflexivity | now rewrite IH].
Qed.

(** The scan of a name put in lower case runs as the scan of the name. *)
Lemma extname_scan_lower (rest : list ascii) :
  forall matchedSlash ended tail dot left preDotState,
    extname_scan (map lower_char rest) matchedSlash ended (map lower_char tail)
                 (option_map (map lower_char) dot) left preDotState
    = toLowerCase (extname_scan rest matchedSlash ended tail dot left preDotState).
Proof.
  assert (Hfinish : forall dot ended left pds,
             match option_map (map lower_char) dot with
             | None => EmptyString
             | Some ext =>
                 if negb ended then EmptyString
                 else if pds =? 0 then EmptyString
                 else if (pds =? 1) && (List.length ext =? 1)%nat && (left =? 1)%nat
                 then EmptyString
                 else string_of_list_ascii ext
             end
             = toLowerCase
                 match dot with
                 | None => EmptyString
                 | Some ext =>
                     if negb ended then EmptyString
                     else if pds =? 0 then EmptyString
                     else if (pds =? 1) && (List.length ext =? 1)%nat && (left =? 1)%nat
                     then EmptyString
                     else string_of_list_ascii ext
                 end).
  { intros [ext|] ended left pds; simpl; [|reflexivity].
    rewrite length_map.
    destruct (negb ended); [reflexivity|].
    destruct (pds =? 0); [reflexivity|].
    destruct ((pds =? 1) && (List.length ext =? 1)%nat && (left =? 1)%nat); [reflexivity|].
    symmetry. apply toLowerCase_chars. }
  induction rest as [|c rest IH]; intros ms en tail dot left pds.
  - apply Hfinish.
  - cbn [map extname_scan].
    rewrite lower_char_keeps_slash, lower_char_keeps_dot.
    destruct (Ascii.eqb c "/").
    + destruct (negb ms); [apply Hfinish | apply IH].
    + assert (Htail : lower_char c :: (if en then map lower_char tail else [])
                      = map lower_char (c :: (if en then tail else []))).
      { now destruct en. }
      rewrite Htail.
      destruct (Ascii.eqb c "."); destruct dot as [ext|]; cbn [option_map];
        try apply (IH false true _ (Some ext));
        try apply (IH false true _ None).
      apply (IH false true _ (Some (c :: (if en then tail else [])))).
Qed.

Lemma extname_toLowerCase (s : string) :
  extname (toLowerCase s) = toLowerCase (extname s).
Proof.
  unfold extname. rewrite list_ascii_of_toLowerCase, <- map_rev.
  apply (extname_scan_lower _ true false [] None O 0).
Qed.

(** X17: the filter does not look at the case of the letters of the file
    name: two names that are equal once put in lower case get the same
    decision (the declared type, in contrast, is tested as it is). *)
Theorem fileFilter_name_case (mimetype name1 name2 : string) :
  toLowerCase name1 = toLowerCase name2 ->
  fileFilter mimetype name1 = fileFilter mimetype name2.
Proof.
  intros H. unfold fileFilter.
  now rewrite <- !extname_toLowerCase, H.
Qed.

Lemma fileFilter_name_case_witness :
  fileFilter "image/gif" "Banner.GIF" = fileFilter "image/gif" "banner.gif".
Proof.
  apply fileFilter_name_case. reflexivity.
Defined.

(** ** Ids and staging names made from the clock *)

Lemma toString_inj (a b : Z) : toString a = toString b -> a = b.
Proof.
  unfold toString. intros H.
  assert (Hnonnil : forall z, Z.to_int z <> Decimal.Pos Decimal.Nil /\
                              Z.to_int z <> Decimal.Neg Decimal.Nil).
  { intros [|p|p]; simpl; split; try discriminate;
      intros Hp; injection Hp as Hp; now apply DecimalPos.Unsigned.to_uint_nonnil in Hp. }
  assert (Hint : Some (Z.to_int a) = Some (Z.to_int b)).
  { destruct (Hnonnil a) as [Ha1 Ha2], (Hnonnil b) as [Hb1 Hb2].
    rewrite <- (NilZero.isi (Z.to_int a) Ha1 Ha2), <- (NilZero.isi (Z.to_int b) Hb1 Hb2).
    now rewrite H. }
  injection Hint as Hint.
  rewrite <- (DecimalZ.of_to a), <- (DecimalZ.of_to b). now rewrite Hint.
Qed.

Lemma string_length_append (s t : string) :
  String.length (String.append s t) = (String.length s + String.length t)%nat.
Proof.
  induction s as [|c s IH]; simpl; [reflexivity | now rewrite IH].
Qed.

Lemma append_cancel_r (s1 s2 t : string) :
  String.append s1 t = String.append s2 t -> s1 = s2.
Proof.
  intros H.
  assert (Hlen : String.length s1 = String.length s2).
  { apply (f_equal String.length) in H. rewrite !string_length_append in H. lia. }
  revert s2 H Hlen. induction s1 as [|c s1 IH]; intros [|d s2] H Hlen; simpl in *;
    try discriminate; [reflexivity|].
  injection H as -> H. f_equal. apply IH; [exact H | lia].
Qed.

(** X18: the id of a record created in the fallback store is the decimal
    rendering of the clock read by its handler, so two such records have the
    same id exactly when their handlers read the same millisecond. *)
Theorem fallback_ids_from_clock (st1 st1' st2 st2' : state) (w1 w2 : world)
    (title1 title2 : jsval) (file1 file2 : option string) (i1 i2 : Image.t) :
  mongoConnected st1 = false -> mongoConnected st2 = false ->
  upload_handler st1 w1 title1 file1 = (st1', mkResponse 200 (ImageBody i1)) ->
  upload_handler st2 w2 title2 file2 = (st2', mkResponse 200 (ImageBody i2)) ->
  Image._id i1 = toString (now w1) /\
  (Image._id i1 = Image._id i2 <-> now w1 = now w2).
Proof.
  intros Hmc1 Hmc2 Hup1 Hup2.
  assert (Hid : forall st st' w title file i,
             mongoConnected st = false ->
             upload_handler st w title file = (st', mkResponse 200 (ImageBody i)) ->
             Image._id i = toString (now w)).
  { clear. intros st st' w title file i Hmc. unfold upload_handler.
    destruct file as [path|]; [|discriminate].
    destruct (cloud_upload w) as [[secure_url public_id]|msg]; [|discriminate].
    destruct (unlinkSync path (uploads st)) as [files|msg]; [|discriminate].
    rewrite Hmc. intros H. injection H as _ <-. reflexivity. }
  rewrite (Hid _ _ _ _ _ _ Hmc1 Hup1), (Hid _ _ _ _ _ _ Hmc2 Hup2).
  split; [reflexivity|]. split; [apply toString_inj | now intros ->].
Qed.

Lemma fallback_ids_from_clock_witness :
  Image._id Sample.older_image = Image._id Sample.newer_image <-> 1000 = 2000.
Proof.
  exact (proj2 (fallback_ids_from_clock Sample.staged
                  (fst (upload_handler Sample.staged (Sample.world_at 1000 1000 "a")
                          (JStr "Older") (Some "uploads/1000-a.png")))
                  Sample.staged
                  (fst (upload_handler Sample.staged (Sample.world_at 2000 2000 "b")
                          (JStr "Newer") (Some "uploads/2000-b.png")))
                  (Sample.world_at 1000 1000 "a") (Sample.world_at 2000 2000 "b")
                  (JStr "Older") (JStr "Newer")
                  (Some "uploads/1000-a.png") (Some "uploads/2000-b.png")
                  Sample.older_image Sample.newer_image
                  eq_refl eq_refl eq_refl eq_refl)).
Defined.

(** X19: the name of the staging file is made of the clock and the original
    name: two files with the same original name get the same staging name
    exactly when they arrive in the same millisecond, and at one clock
    reading different original names give different staging names. *)
Theorem filename_collisions (a b : Z) (name1 name2 : string) :
  (filename a name1 = filename b name1 <-> a = b) /\
  (filename a name1 = filename a name2 <-> name1 = name2).
Proof.
  unfold filename. split; split.
  - intros H. apply append_cancel_r in H. now apply toString_inj.
  - now intros ->.
  - generalize (toString a) as s. intros s H.
    induction s as [|c s IH]; simpl in H.
    + now injection H.
    + injection H as H. auto.
  - now intros ->.
Qed.

(** ** A database outage *)

Section Outage.

Context {C : Crypto}.

(** X20: once the process is in persistent mode, a request served while the
    database fails is never answered 200 and never served from the fallback
    arrays: both image stores are as before and the mode stays persistent. *)
Theorem database_outage (e : env) (st : state) (r : request) (w : world) :
  mongoConnected st = true -> db_ok w = false ->
  status (snd (handle e st r w)) <> 200 /\
  db_images (fst (handle e st r w)) = db_images st /\
  images (fst (handle e st r w)) = images st /\
  mongoConnected (fst (handle e st r w)) = true.
Proof.
  intros Hmc Hdb.
  destruct (handle_flags e st r w) as [Hflag _].
  rewrite Hflag, Hmc.
  assert (Hmain : status (snd (handle e st r w)) <> 200 /\
                  db_images (fst (handle e st r w)) = db_images st /\
                  images (fst (handle e st r w)) = images st); [|tauto].
  assert (Hgate : forall h res, admin_gate e w h = inl res -> status res <> 200).
  { intros h res. unfold admin_gate, authenticateToken, isAdmin.
    destruct (header_token h) as [token|]; [|intros H; injection H as <-; discriminate].
    destruct (String.eqb token ""); [intros H; injection H as <-; discriminate|].
    destruct (jwt_verify token (verify_secret e) (now w)) as [err|c];
      [intros H; injection H as <-; discriminate|].
    destruct (negb (Claims.isAdmin c)); [intros H; injection H as <-; discriminate|].
    discriminate. }
  destruct r as [email password| |h m|h id title|h id]; simpl.
  - unfold login, find_user. rewrite Hmc, Hdb. simpl. repeat split. discriminate.
  - unfold list_images. rewrite Hmc, Hdb. simpl. repeat split. discriminate.
  - destruct (admin_gate e w h) as [res|user] eqn:Hg;
      [simpl; repeat split; eapply Hgate; eauto|].
    destruct m as [msg|title file]; [simpl; repeat split; discriminate|].
    destruct (multer_store_images file st) as (Hi & Hd & Hm).
    revert Hi Hd Hm. generalize (multer_store file st) as st0. intros st0 Hi Hd Hm.
    unfold upload_handler, save_image.
    destruct file as [path|]; [|simpl; rewrite Hi, Hd; repeat split; discriminate].
    destruct (cloud_upload w) as [[secure_url public_id]|msg];
      [|simpl; rewrite Hi, Hd; repeat split; discriminate].
    destruct (unlinkSync path (uploads st0)) as [files|msg];
      [|simpl; rewrite Hi, Hd; repeat split; discriminate].
    rewrite Hm, Hmc, Hdb. simpl. rewrite Hi, Hd. repeat split. discriminate.
  - destruct (admin_gate e w h) as [res|user] eqn:Hg;
      [simpl; repeat split; eapply Hgate; eauto|].
    unfold update_handler. rewrite Hmc.
    destruct (findById_outage w id (db_images st) Hdb) as [msg ->].
    simpl. repeat split. discriminate.
  - destruct (admin_gate e w h) as [res|user] eqn:Hg;
      [simpl; repeat split; eapply Hgate; eauto|].
    unfold delete_handler, delete_lookup. rewrite Hmc.
    destruct (findById_outage w id (db_images st) Hdb) as [msg ->].
    simpl. repeat split. discriminate.
Qed.

End Outage.

Lemma database_outage_witness :
  status (snd (handle Sample.env_set Sample.connected ListImages
                 (mkWorld 1500 1500 false "connection closed" "" (Throw "x") (Ok tt))))
  <> 200 /\
  db_images (fst (handle Sample.env_set Sample.connected ListImages
                    (mkWorld 1500 1500 false "connection closed" "" (Throw "x") (Ok tt))))
  = [Sample.old_doc].
Proof.
  destruct (database_outage Sample.env_set Sample.connected ListImages
              (mkWorld 1500 1500 false "connection closed" "" (Throw "x") (Ok tt))
              eq_refl eq_refl) as (H1 & H2 & _).
  split; [exact H1 | exact H2].
Defined.

(** ** Ties in the listing *)

Lemma sort_insert_same_instant (t : Z) (x : Image.t) (l : list Image.t) :
  filter (fun i => Image.createdAt i =? t) (sort_insert by_createdAt_desc x l)
  = filter (fun i => Image.createdAt i =? t) (x :: l).
Proof.
  induction l as [|y l IH]; [reflexivity|].
  cbn [sort_insert]. unfold by_createdAt_desc at 1.
  destruct (Z.leb_spec (Image.createdAt y - Image.createdAt x) 0) as [Hle|Hgt];
    [reflexivity|].
  cbn [filter] in *. rewrite IH.
  destruct (Z.eqb_spec (Image.createdAt x) t), (Z.eqb_spec (Image.createdAt y) t);
    try reflexivity; lia.
Qed.

(** X21: the listing of the fallback store is stable: the records created
    at one instant are listed in the order in which the array holds them. *)
Theorem list_images_stable (st : state) (w : world) (t : Z) :
  mongoConnected st = false ->
  exists l,
    snd (list_images st w) = mkResponse 200 (ImageList l) /\
    filter (fun i => Image.createdAt i =? t) l
    = filter (fun i => Image.createdAt i =? t) (images st).
Proof.
  intros Hmc. unfold list_images. rewrite Hmc. eexists. split; [reflexivity|].
  induction (images st) as [|x l IH]; [reflexivity|].
  cbn [js_sort fold_right]. fold (js_sort by_createdAt_desc l).
  rewrite sort_insert_same_instant. cbn [filter]. now rewrite IH.
Qed.

Lemma list_images_stable_witness :
  exists l,
    snd (list_images
           (set_images [Sample.newer_image; Sample.first_image; Sample.second_image]
                       Sample.fallback)
           (Sample.world_at 3000 3000 "c"))
    = mkResponse 200 (ImageList l) /\
    filter (fun i => Image.createdAt i =? 1000) l = [Sample.first_image; Sample.second_image].
Proof.
  exact (list_images_stable
           (set_images [Sample.newer_image; Sample.first_image; Sample.second_image]
                       Sample.fallback)
           (Sample.world_at 3000 3000 "c") 1000 eq_refl).
Defined.

(** ** The connection succeeds *)

Section Startup.

Context {C : Crypto}.

Lemma find_first_admin (l l' : list User.t) (u : User.t) :
  find_admin l = None -> User.email u = "admin@gmail.com" ->
  find (fun x => str_strict_eq (User.email x) (JStr "admin@gmail.com")) (l ++ u :: l') = Some u.
Proof.
  unfold find_admin. intros Hnone Hu.
  induction l as [|x l IH]; simpl in *.
  - now rewrite Hu.
  - destruct (String.eqb (User.email x) "admin@gmail.com"); [discriminate | auto].
Qed.

Lemma seeding_splice1 (l : list continuation) (k : nat) (c : seed_call) :
  nth_error l k = Some (Seeding c) ->
  S (List.length (filter is_seeding (splice1 k l))) = List.length (filter is_seeding l).
Proof.
  revert k. induction l as [|x l IH]; intros [|k]; simpl; try discriminate.
  - intros H. injection H as ->. reflexivity.
  - intros H. destruct (is_seeding x); simpl; now rewrite <- (IH k H).
Qed.

Lemma deleting_splice1 (l : list continuation) (k : nat) (d : pending_delete) :
  nth_error l k = Some (Deleting d) ->
  List.length (filter is_seeding (splice1 k l)) = List.length (filter is_seeding l).
Proof.
  revert k. induction l as [|x l IH]; intros [|k]; simpl; try discriminate.
  - intros H. injection H as ->. reflexivity.
  - intros H. destruct (is_seeding x); simpl; now rewrite (IH k H).
Qed.

Lemma seeding_update_at (l : list continuation) (k : nat) (c c' : seed_call) :
  nth_error l k = Some (Seeding c) ->
  List.length (filter is_seeding (update_at k (fun _ => Seeding c') l))
  = List.length (filter is_seeding l).
Proof.
  revert k. induction l as [|x l IH]; intros [|k]; simpl; try discriminate.
  - intros H. injection H as ->. reflexivity.
  - intros H. destruct (is_seeding x); simpl; now rewrite (IH k H).
Qed.

(** One event adds admin documents only, one per [initializeUsers] call
    that ends. *)
Lemma step_seeding (e : env) (st st' : state) (ev : event) (res : option response) :
  step e st ev = Some (st', res) ->
  exists l,
    db_users st' = db_users st ++ l /\
    Forall admin_document l /\
    (List.length l + seeding_calls st' + calls_to_come st'
     <= seeding_calls st + calls_to_come st)%nat.
Proof.
  unfold seeding_calls, calls_to_come.
  destruct ev as [|h1 h2|r w|h id w|k w hash]; cbn [step].
  - destruct (connectPending st) eqn:Hp; [|discriminate].
    intros H. injection H as <- <-. exists []. cbn. rewrite app_nil_r, filter_app, length_app.
    cbn. split; [reflexivity|]. split; [constructor | lia].
  - destruct (connectPending st) eqn:Hp; [|discriminate].
    intros H. injection H as <- <-. exists []. rewrite app_nil_r.
    unfold initializeInMemoryUsers. destruct h1, h2; cbn; (split; [reflexivity|]);
      (split; [constructor | lia]).
  - destruct (handle e st r w) as [st1 res1] eqn:Hh.
    intros H. injection H as <- <-.
    destruct (handle_frame e st r w) as (_ & Hp & _ & Hdu & Hfl).
    rewrite Hh in Hp, Hdu, Hfl. simpl in Hp, Hdu, Hfl.
    exists []. rewrite app_nil_r, Hp, Hdu, Hfl. cbn.
    split; [reflexivity|]. split; [constructor | lia].
  - destruct (admin_gate e w h).
    { intros H. injection H as <- <-. exists []. rewrite app_nil_r. cbn.
      split; [reflexivity|]. split; [constructor | lia]. }
    destruct (delete_lookup st w id) as [r|[image d]].
    { intros H. injection H as <- <-. exists []. rewrite app_nil_r. cbn.
      split; [reflexivity|]. split; [constructor | lia]. }
    destruct (required (Image.cloudinaryId image)).
    { intros H. injection H as <- <-. exists []. rewrite app_nil_r. cbn.
      rewrite filter_app, length_app. cbn.
      split; [reflexivity|]. split; [constructor | lia]. }
    destruct (delete_finish st w d (Ok tt)) as [st1 res1] eqn:Hf.
    intros H. injection H as <- <-.
    destruct (delete_finish_frame st w d (Ok tt)) as (_ & Hp & _ & Hdu & Hfl).
    rewrite Hf in Hp, Hdu, Hfl. simpl in Hp, Hdu, Hfl.
    exists []. rewrite app_nil_r, Hp, Hdu, Hfl. cbn.
    split; [reflexivity|]. split; [constructor | lia].
  - destruct (nth_error (inflight st) k) as [[c|d]|] eqn:Hk; [| |discriminate].
    + destruct c as [| |hashedPassword]; cbn [initializeUsers].
      * destruct (negb (db_ok w));
          [|destruct (find _ (db_users st))];
          intros H; injection H as <- <-; exists []; rewrite app_nil_r; cbn;
          (split; [reflexivity|]); (split; [constructor|]);
          try (pose proof (seeding_splice1 _ _ _ Hk); lia).
        rewrite (seeding_update_at _ _ _ AwaitHash Hk). lia.
      * destruct hash as [hashedPassword|msg]; intros H; injection H as <- <-;
          exists []; rewrite app_nil_r; cbn;
          (split; [reflexivity|]); (split; [constructor|]).
        -- rewrite (seeding_update_at _ _ _ (AwaitCreate hashedPassword) Hk). lia.
        -- pose proof (seeding_splice1 _ _ _ Hk). lia.
      * destruct (negb (db_ok w)); intros H; injection H as <- <-.
        -- exists []. rewrite app_nil_r. cbn.
           split; [reflexivity|]. split; [constructor|].
           pose proof (seeding_splice1 _ _ _ Hk). lia.
        -- eexists. cbn. split; [reflexivity|].
           split; [repeat constructor|].
           pose proof (seeding_splice1 _ _ _ Hk). cbn. lia.
    + destruct (delete_finish (set_inflight (splice1 k (inflight st)) st) w d (cloud_destroy w))
        as [st1 res1] eqn:Hf.
      intros H. injection H as <- <-.
      destruct (delete_finish_frame (set_inflight (splice1 k (inflight st)) st) w d
                  (cloud_destroy w)) as (_ & Hp & _ & Hdu & Hfl).
      rewrite Hf in Hp, Hdu, Hfl. simpl in Hp, Hdu, Hfl.
      exists []. rewrite app_nil_r, Hp, Hdu, Hfl.
      rewrite (deleting_splice1 _ _ _ Hk).
      split; [reflexivity|]. split; [constructor | cbn; lia].
Qed.

(** X11: over the life of the process the User collection only grows, and by
    admin documents only: no request writes to it, and every
    [initializeUsers] call adds at most one document, with the email
    admin@gmail.com and the admin flag.  The calls are the two that a
    fulfilled connection starts, so a process adds at most two admin
    documents, and none when the connection is rejected. *)
Theorem seeding_adds_admins (e : env) (evs : list event) :
  forall (st st' : state) (log : list backend) (out : list response),
    run e st evs = Some (st', log, out) ->
    exists l,
      db_users st' = db_users st ++ l /\
      Forall admin_document l /\
      (List.length l + seeding_calls st' + calls_to_come st'
       <= seeding_calls st + calls_to_come st)%nat.
Proof.
  induction evs as [|ev evs IH]; intros st st' log out Hrun.
  - simpl in Hrun. injection Hrun as <- <- <-. exists []. rewrite app_nil_r.
    split; [reflexivity|]. split; [constructor | simpl; lia].
  - apply run_cons in Hrun as (st1 & res & log' & out' & Hstep & Hrun & _).
    apply step_seeding in Hstep as (l1 & Hl1 & Ha1 & Hn1).
    apply IH in Hrun as (l2 & Hl2 & Ha2 & Hn2).
    exists (l1 ++ l2). rewrite Hl2, Hl1, app_assoc, length_app.
    split; [reflexivity|]. split; [now apply Forall_app | lia].
Qed.

(** X22: the connection succeeds on a database without an admin document,
    the database answers and the hashes are computed.  The process is in
    persistent mode and two [initializeUsers] calls are in flight, the one
    of the ['open'] listener and the one of the [then] callback.  When both
    have queried the collection before either inserts, as calls started
    together do, both insert: the collection ends with two admin documents,
    and with one if the database refuses the second insert.  When the first
    call has inserted before the second queries, the second stops and there
    is one admin document.  The fallback users are not seeded, and in each
    case admin@gmail.com logs in with admin123 and the admin flag, against
    the first admin document. *)
Theorem connect_fulfilled_seeds_admin (e : env) (st : state) (w1 w2 w3 w4 w' wx : world)
    (hx : result string) (mc : bool) (h1 h2 k : string) :
  connectPending st = true -> inflight st = [] ->
  find_admin (db_users st) = None ->
  db_ok w1 = true -> db_ok w2 = true -> db_ok w3 = true -> db_ok w' = true ->
  bcrypt_compare "admin123" h1 = true ->
  JWT_SECRET e = Some k -> k <> "" ->
  let admin1 := User.mk (JStr (new_oid w3)) (JStr (new_oid w3)) "admin@gmail.com" h1 true in
  let admin2 := User.mk (JStr (new_oid w4)) (JStr (new_oid w4)) "admin@gmail.com" h2 true in
  let connected := set_mongoConnected true (set_connectPending false st) in
  run e st
    [ConnectFulfilled;
     Resume 0 w1 hx; Resume 1 w2 hx;
     Resume 0 wx (Ok h1); Resume 1 wx (Ok h2);
     Resume 0 w3 hx; Resume 0 w4 hx]
  = Some (set_db_users (db_users st ++ admin1 :: (if db_ok w4 then [admin2] else []))
            connected, [], []) /\
  run e st
    [ConnectFulfilled;
     Resume 0 w1 hx; Resume 0 wx (Ok h1); Resume 0 w3 hx;
     Resume 0 w2 hx]
  = Some (set_db_users (db_users st ++ [admin1]) connected, [], []) /\
  forall l,
    users (set_db_users (db_users st ++ admin1 :: l) connected) = users st /\
    exists token,
      login e w' (set_db_users (db_users st ++ admin1 :: l) connected) mc
        (JStr "admin@gmail.com") (JStr "admin123")
      = mkResponse 200 (TokenBody token true).
Proof.
  intros Hp Hfl Hnone Hdb1 Hdb2 Hdb3 Hdb' Hcmp Hk Hne. cbv zeta.
  destruct st as [mc0 p u i du di up fl]. simpl in Hp, Hfl, Hnone. subst p fl.
  assert (Hfind : find (fun x => String.eqb (User.email x) "admin@gmail.com") du = None)
    by exact Hnone.
  assert (Hfound : forall l,
             find (fun x => String.eqb (User.email x) "admin@gmail.com")
               (du ++ User.mk (JStr (new_oid w3)) (JStr (new_oid w3)) "admin@gmail.com" h1 true
                   :: l) <> None).
  { intros l. clear - Hfind. induction du as [|x du IH]; simpl in *.
    - discriminate.
    - destruct (String.eqb (User.email x) "admin@gmail.com"); [discriminate | auto]. }
  split; [|split].
  - repeat (progress (cbn; rewrite ?Hdb1, ?Hdb2, ?Hdb3, ?Hfind)).
    destruct (db_ok w4); cbn; rewrite <- ?app_assoc; reflexivity.
  - repeat (progress (cbn; rewrite ?Hdb1, ?Hdb2, ?Hdb3, ?Hfind)).
    specialize (Hfound []).
    destruct (find _ (du ++ _)); [reflexivity | contradiction].
  - intros l. split; [reflexivity|].
    unfold login, find_user.
    cbn [mongoConnected db_users set_db_users set_mongoConnected set_connectPending].
    rewrite Hdb'.
    rewrite (find_first_admin du l
               (User.mk (JStr (new_oid w3)) (JStr (new_oid w3)) "admin@gmail.com" h1 true)
               Hnone eq_refl).
    cbn [bcrypt_compare_js User.password User.email User.isAdmin]. rewrite Hcmp. unfold jwt_sign, sign_secret. rewrite Hk.
    destruct (String.eqb_spec k ""); [contradiction | eauto].
Qed.

End Startup.

Lemma seeding_adds_admins_witness :
  match run Sample.env_set (init_state [] [] [])
          [ConnectFulfilled;
           Resume 0 (Sample.world_at 1000 1000 "a") (Throw "");
           Resume 0 (Sample.world_at 1000 1000 "a") (Ok (Toy.hash "admin123"));
           Resume 0 (Sample.world_at 1100 1100 "a") (Throw "")] with
  | Some (st', _, _) =>
      exists l, db_users st' = l /\ Forall admin_document l /\ (List.length l <= 2)%nat
  | None => False
  end.
Proof.
  destruct (run Sample.env_set (init_state [] [] [])
              [ConnectFulfilled;
               Resume 0 (Sample.world_at 1000 1000 "a") (Throw "");
               Resume 0 (Sample.world_at 1000 1000 "a") (Ok (Toy.hash "admin123"));
               Resume 0 (Sample.world_at 1100 1100 "a") (Throw "")])
    as [[[st' log] out]|] eqn:Hrun.
  - destruct (seeding_adds_admins _ _ _ _ _ _ Hrun) as (l & Hl & Ha & Hn).
    exists l. split; [exact Hl|]. split; [exact Ha|].
    unfold seeding_calls, calls_to_come in Hn. simpl in Hn. lia.
  - vm_compute in Hrun. discriminate Hrun.
Defined.

Lemma connect_fulfilled_seeds_admin_witness :
  option_map (fun x => map User.password (db_users (fst (fst x))))
    (run Sample.env_set (init_state [] [] [])
       [ConnectFulfilled;
        Resume 0 (Sample.world_at 1000 1000 "a") (Throw "");
        Resume 1 (Sample.world_at 1001 1001 "a") (Throw "");
        Resume 0 (Sample.world_at 1050 1050 "a") (Ok (Toy.hash "admin123"));
        Resume 1 (Sample.world_at 1050 1050 "a") (Ok (Toy.hash "admin123"));
        Resume 0 (Sample.world_at 1100 1100 "a") (Throw "");
        Resume 0 (Sample.world_at 1101 1101 "a") (Throw "")])
  = Some [Toy.hash "admin123"; Toy.hash "admin123"].
Proof.
  destruct (connect_fulfilled_seeds_admin Sample.env_set (init_state [] [] [])
              (Sample.world_at 1000 1000 "a") (Sample.world_at 1001 1001 "a")
              (Sample.world_at 1100 1100 "a") (Sample.world_at 1101 1101 "a")
              (Sample.world_at 1500 1500 "c") (Sample.world_at 1050 1050 "a") (Throw "") true
              (Toy.hash "admin123") (Toy.hash "admin123") "s3cret") as (Hrun & _).
  - reflexivity.
  - reflexivity.
  - reflexivity.
  - reflexivity.
  - reflexivity.
  - reflexivity.
  - reflexivity.
  - reflexivity.
  - reflexivity.
  - discriminate.
  - rewrite Hrun. reflexivity.
Defined.

(** ** The storage mode once the connection attempt has settled *)

Section Settled.

Context {C : Crypto}.

(** X23: [mongoConnected] is written once at most, by the [then] callback of
    the connection, and never cleared.  Once a handler has read persistent,
    every later handler does; once the promise of the connection has settled,
    the flag keeps its value and every handler reads the same backend; so in
    every run the handlers that read in-memory come before those that read
    persistent.  A request that runs through is served from the store the
    flag names: its answer and what it leaves in that store do not depend on
    the other store, which it leaves as it was. *)
Theorem storage_mode_monotone (e : env) (st st' : state) (evs : list event)
    (log : list backend) (out : list response) :
  run e st evs = Some (st', log, out) ->
  (mongoConnected st = true ->
   mongoConnected st' = true /\ Forall (eq Persistent) log) /\
  (connectPending st = false ->
   mongoConnected st' = mongoConnected st /\ connectPending st' = false /\
   Forall (eq (backend_of st)) log) /\
  (exists n m, log = repeat InMemory n ++ repeat Persistent m) /\
  (forall st1 st2 r w,
      same_active st1 st2 ->
      snd (handle e st1 r w) = snd (handle e st2 r w) /\
      same_active (fst (handle e st1 r w)) (fst (handle e st2 r w)) /\
      inactive_images (fst (handle e st1 r w)) = inactive_images st1 /\
      inactive_users (fst (handle e st1 r w)) = inactive_users st1).
Proof.
  intros Hrun. split; [|split; [|split]].
  - intros Hmc. exact (run_persistent e evs st st' log out Hrun Hmc).
  - intros Hp. exact (run_settled e evs st st' log out Hrun Hp).
  - exact (run_log_shape e evs st st' log out Hrun).
  - intros st1 st2 r w. apply handle_one_backend.
Qed.

End Settled.

Lemma storage_mode_monotone_witness :
  match run Sample.env_set Sample.fallback
          [Sample.upload_first;
           Request ListImages (Sample.world_at 1500 1500 "c");
           Request (Login (JStr "admin@gmail.com") (JStr "admin123"))
                   (Sample.world_at 1600 1600 "c")] with
  | Some (st', log, out) => mongoConnected st' = false /\ Forall (eq InMemory) log
  | None => False
  end.
Proof.
  destruct (run Sample.env_set Sample.fallback
              [Sample.upload_first;
               Request ListImages (Sample.world_at 1500 1500 "c");
               Request (Login (JStr "admin@gmail.com") (JStr "admin123"))
                       (Sample.world_at 1600 1600 "c")])
    as [[[st' log] out]|] eqn:Hrun.
  - destruct (proj1 (proj2 (storage_mode_monotone _ _ _ _ _ _ Hrun)) eq_refl) as (Hm & _ & Hlog).
    split; [exact Hm | exact Hlog].
  - vm_compute in Hrun. discriminate Hrun.
Defined.
